(** * GraphmlNamespace.js: namespace registry and sequential class loader

    A shallow embedding of [src/GraphmlNamespace.js].  The JavaScript
    program keeps all of its state in shared mutable objects:
    [document.namespaces] (the registry), the [GraphmlNamespace]
    instances themselves, the arrays of file paths handed to the class
    loader, [GraphmlNamespaceClassLoader.loaderList], the [<script>]
    elements appended to the page, and the console.  The embedding
    collects them in one record, [World], and every function of the
    source becomes a function from [World] to a result and a new [World].

    Objects are referred to by reference: a [GraphmlNamespace] instance is
    an index into [heap], an array an index into [arrays], so that [===]
    on instances is equality of indices and two tasks that were given the
    same array share its contents.

    Modelling conventions.
    - A JavaScript object used as a dictionary is a [gmap] over its own
      string keys, read through the prototype chain: a key that the object
      does not own reads as the member of [Object.prototype] of that name
      when there is one ([inherited]), and as [undefined] otherwise.
    - The registry can also own a key whose value is [undefined] (the
      renaming of a scoped instance whose slot is gone stores one).
      Such a key reads as [undefined] whatever [Object.prototype] has
      under that name; these keys are kept in [undefined_keys], next to
      the keys that hold an instance.
    - Assigning to the key ["__proto__"] replaces the prototype of a
      dictionary instead of storing a property.  Reads of that key are
      modelled (it is an inherited name); a store under it is modelled
      like any other store, so states reached by storing an identifier or
      a class name ["__proto__"] are outside the model.
    - Strings are sequences of code units; [+:+] is JavaScript's [+] on
      strings.
    - [document.currentScript.getAttribute("src")] is an input from the
      page: [load] receives it as an argument. *)

From Stdlib Require Import ZArith Lia Ascii String.
From stdpp Require Import gmap strings list.

Local Open Scope string_scope.
Local Open Scope list_scope.

(** ** Values *)

(** References to instances and to arrays are positions in the stores. *)
Abbreviation ref := nat (only parsing).
Abbreviation aref := nat (only parsing).

(** What [f.constructor] evaluates to for a function value [f]: the
    intrinsic [Function] for every function and class declared in the
    ordinary way, something else for generator or async functions or when
    the property was assigned. *)
Inductive Constructor :=
| FunctionCtor
| ObjectCtor
| OtherCtor (id : nat).

(** A function value: its identity, its [name] property and its
    [constructor] property. *)
Record JSFunction := {
  fn_id : nat;
  fn_name : string;
  fn_constructor : Constructor
}.

(** The values that can be handed to [setSpecificClass] as [newClass]. *)
Inductive Value :=
| VUndefined
| VNotCallable (truthy : bool)
| VFunction (f : JSFunction).

#[global] Instance Constructor_eq_dec : EqDecision Constructor.
Proof. solve_decision. Defined.

#[global] Instance JSFunction_eq_dec : EqDecision JSFunction.
Proof. solve_decision. Defined.

(** ** Dictionaries and the prototype chain *)

(** The names under which a plain object [{}] inherits a member from
    [Object.prototype]. *)
Definition object_prototype_names : list string :=
  ["constructor"; "hasOwnProperty"; "isPrototypeOf"; "propertyIsEnumerable";
   "toLocaleString"; "toString"; "valueOf";
   "__defineGetter__"; "__defineSetter__"; "__lookupGetter__"; "__lookupSetter__";
   "__proto__"].

Definition inherited (key : string) : bool :=
  bool_decide (key ∈ object_prototype_names).

(** What [document.namespaces[uri]] yields when it is not [undefined]: an
    instance stored there, or a member of [Object.prototype]. *)
Inductive Slot :=
| SlotInstance (n : nat)
| SlotInherited.

#[global] Instance Slot_eq_dec : EqDecision Slot.
Proof. solve_decision. Defined.

(** What [classList[name]] yields when it is not [undefined]. *)
Inductive Member :=
| OwnClass (f : JSFunction)
| InheritedMember.

(** [m.constructor] for the value [m] read under [name]: the members of
    [Object.prototype] are functions, except that ["__proto__"] reads as
    [Object.prototype] itself, whose [constructor] is [Object]. *)
Definition member_constructor (name : string) (m : Member) : Constructor :=
  match m with
  | OwnClass f => fn_constructor f
  | InheritedMember =>
      if decide (name = "__proto__") then ObjectCtor else FunctionCtor
  end.

(** The member of [Object.prototype] under [name] as a value: a built-in
    function (identity [0] is theirs; the one under ["constructor"] is
    [Object]), or [Object.prototype] for ["__proto__"]. *)
Definition inherited_value (name : string) : Value :=
  if decide (name = "__proto__") then VNotCallable true
  else VFunction {| fn_id := 0;
                    fn_name := if decide (name = "constructor") then "Object" else name;
                    fn_constructor := FunctionCtor |}.

(** How a call ends: it returns a boolean, or it throws a [TypeError]. *)
Inductive Completion :=
| Returned (b : bool)
| TypeError.

(** ** The objects of the program *)

(** A [GraphmlNamespace] instance: fields [uri], [classList], [isScoped]. *)
Record Namespace := {
  ns_uri : string;
  ns_classList : gmap string JSFunction;
  ns_isScoped : bool
}.

(** A loading task, built in [GraphmlNamespaceClassLoader.load]. *)
Record Entry := {
  entry_namespace : option ref;
  entry_classList : aref;
  entry_folder : string
}.

(** A [<script>] element created by [GraphmlNamespaceClassLoader.loader]:
    its [src] attribute, the [namespace] its handlers close over, and
    whether [onload]/[onerror] are still installed. *)
Record Script := {
  script_src : string;
  script_namespace : option ref;
  script_handlers : bool
}.

Record World := {
  namespaces : gmap string ref;
  undefined_keys : gset string;
  heap : list Namespace;
  arrays : list (list string);
  loaderList : list Entry;
  scripts : list Script;
  console : list string
}.

Definition empty_world : World :=
  {| namespaces := ∅; undefined_keys := ∅; heap := []; arrays := [];
     loaderList := []; scripts := []; console := [] |}.

(** *** Field updates *)

Definition set_namespaces (r : gmap string ref) (w : World) : World :=
  {| namespaces := r; undefined_keys := undefined_keys w;
     heap := heap w; arrays := arrays w;
     loaderList := loaderList w; scripts := scripts w; console := console w |}.

Definition set_undefined_keys (k : gset string) (w : World) : World :=
  {| namespaces := namespaces w; undefined_keys := k;
     heap := heap w; arrays := arrays w;
     loaderList := loaderList w; scripts := scripts w; console := console w |}.

Definition set_heap (h : list Namespace) (w : World) : World :=
  {| namespaces := namespaces w; undefined_keys := undefined_keys w;
     heap := h; arrays := arrays w;
     loaderList := loaderList w; scripts := scripts w; console := console w |}.

Definition set_arrays (a : list (list string)) (w : World) : World :=
  {| namespaces := namespaces w; undefined_keys := undefined_keys w;
     heap := heap w; arrays := a;
     loaderList := loaderList w; scripts := scripts w; console := console w |}.

Definition set_loaderList (l : list Entry) (w : World) : World :=
  {| namespaces := namespaces w; undefined_keys := undefined_keys w;
     heap := heap w; arrays := arrays w;
     loaderList := l; scripts := scripts w; console := console w |}.

Definition set_scripts (s : list Script) (w : World) : World :=
  {| namespaces := namespaces w; undefined_keys := undefined_keys w;
     heap := heap w; arrays := arrays w;
     loaderList := loaderList w; scripts := s; console := console w |}.

(** [console.log(msg)] *)
Definition console_log (msg : string) (w : World) : World :=
  {| namespaces := namespaces w; undefined_keys := undefined_keys w;
     heap := heap w; arrays := arrays w;
     loaderList := loaderList w; scripts := scripts w;
     console := console w ++ [msg] |}.

Definition set_uri (u : string) (ns : Namespace) : Namespace :=
  {| ns_uri := u; ns_classList := ns_classList ns; ns_isScoped := ns_isScoped ns |}.

Definition set_classList (c : gmap string JSFunction) (ns : Namespace) : Namespace :=
  {| ns_uri := ns_uri ns; ns_classList := c; ns_isScoped := ns_isScoped ns |}.

Definition set_isScoped (b : bool) (ns : Namespace) : Namespace :=
  {| ns_uri := ns_uri ns; ns_classList := ns_classList ns; ns_isScoped := b |}.

(** [this.field = ...] on the instance behind reference [this]. *)
Definition update_ns (this : ref) (f : Namespace -> Namespace) (w : World) : World :=
  match heap w !! this with
  | Some ns => set_heap (<[this := f ns]> (heap w)) w
  | None => w
  end.

(** [namespaces[key] = this]: the key holds the instance. *)
Definition store_instance (key : string) (this : ref) (w : World) : World :=
  set_undefined_keys (undefined_keys w ∖ {[key]})
    (set_namespaces (<[key := this]> (namespaces w)) w).

(** [namespaces[key] = undefined]: the key is owned and holds [undefined]. *)
Definition store_undefined (key : string) (w : World) : World :=
  set_undefined_keys ({[key]} ∪ undefined_keys w)
    (set_namespaces (delete key (namespaces w)) w).

(** [delete namespaces[key]]: the key is no longer owned. *)
Definition delete_key (key : string) (w : World) : World :=
  set_undefined_keys (undefined_keys w ∖ {[key]})
    (set_namespaces (delete key (namespaces w)) w).

(** ** GraphmlNamespace *)

(** [document.namespaces[uri]] *)
Definition namespaces_at (u : string) (w : World) : option Slot :=
  match namespaces w !! u with
  | Some n => Some (SlotInstance n)
  | None =>
      if bool_decide (u ∈ undefined_keys w) then None
      else if inherited u then Some SlotInherited else None
  end.

(** [this.classList[name]] *)
Definition classList_at (ns : Namespace) (name : string) : option Member :=
  match ns_classList ns !! name with
  | Some f => Some (OwnClass f)
  | None => if inherited name then Some InheritedMember else None
  end.

(** [GraphmlNamespace.get = function(uri)] *)
Definition GraphmlNamespace_get (u : string) (w : World) : option Slot :=
  namespaces_at u w.

(** [GraphmlNamespace.prototype.descope] *)
Definition descope (this : ref) (w : World) : bool * World :=
  match heap w !! this with
  | Some ns =>
      let w1 := console_log ("Namespace " +:+ ns_uri ns +:+ ": removing oneself from current scope") w in
      let w2 := delete_key (ns_uri ns) w1 in
      let w3 := update_ns this (set_isScoped false) w2 in
      (true, w3)
  | None => (true, w)
  end.

(** The tail of [scope]: the log line and [return this.isScoped]. *)
Definition scope_return (this : ref) (w : World) : Completion * World :=
  match heap w !! this with
  | Some ns =>
      if ns_isScoped ns
      then (Returned true,
            console_log ("Namespace " +:+ ns_uri ns +:+ ": adding oneself to the current scope") w)
      else (Returned false, w)
  | None => (Returned false, w)
  end.

(** [oldNamespace.descope()] on the value found in the slot: an instance
    has the method; a member of [Object.prototype] has not, and the call
    throws. *)
Definition call_descope (oldNamespace : Slot) (w : World) : Completion * World :=
  match oldNamespace with
  | SlotInstance old => (Returned (fst (descope old w)), snd (descope old w))
  | SlotInherited => (TypeError, w)
  end.

(** [GraphmlNamespace.prototype.scope = function(overwrite)] *)
Definition scope (this : ref) (overwrite : bool) (w : World) : Completion * World :=
  match heap w !! this with
  | Some ns =>
      if negb (ns_isScoped ns) then
        let u := ns_uri ns in
        match namespaces_at u w with
        | None =>
            (* Not yet scoped *)
            let w1 := store_instance u this w in
            scope_return this (update_ns this (set_isScoped true) w1)
        | Some oldNamespace =>
            if decide (oldNamespace = SlotInstance this) then
              (* Already scoped *)
              let w1 := console_log ("Namespace " +:+ u +:+ ": already scoped") w in
              (Returned true, update_ns this (set_isScoped true) w1)
            else
              (* Check if can be scoped *)
              let w1 := console_log ("Namespace: existing namespace already found scoped under the schema " +:+ u) w in
              let '(willScope, w2) :=
                if overwrite then call_descope oldNamespace w1 else (Returned true, w1) in
              match willScope with
              | TypeError => (TypeError, w2)
              | Returned willScope =>
                  let w3 :=
                    if willScope
                    then update_ns this (set_isScoped true) (store_instance u this w2)
                    else w2 in
                  scope_return this w3
              end
        end
      else scope_return this w
  | None => (Returned false, w)
  end.

(** [GraphmlNamespace.prototype.setNamespaceURI = function(uri)] *)
Definition setNamespaceURI (this : ref) (u : string) (w : World) : bool * World :=
  match heap w !! this with
  | Some ns =>
      let oldURI := ns_uri ns in
      if decide (oldURI = u) then (true, w)
      else if ns_isScoped ns then
        match namespaces_at oldURI w with
        | Some _ =>
            (false,
             console_log ("GraphmlNamespace " +:+ oldURI +:+
                          ": not allowed to change a namespace URI while that namespace is scoped") w)
        | None =>
            (* [namespaces[uri] = namespaces[oldURI]], which is [undefined] here *)
            let w1 := store_undefined u w in
            let w2 := delete_key oldURI w1 in
            (true, update_ns this (set_uri u) w2)
        end
      else (true, update_ns this (set_uri u) w)
  | None => (false, w)
  end.

(** [name || newClass.name]: the empty string and [null] are falsy. *)
Definition name_or (name : option string) (f : JSFunction) : string :=
  match name with
  | Some s => if decide (s = "") then fn_name f else s
  | None => fn_name f
  end.

(** [GraphmlNamespace.prototype.setSpecificClass = function(name, newClass)] *)
Definition setSpecificClass (this : ref) (name : option string) (newClass : Value)
    (w : World) : bool * World :=
  match heap w !! this with
  | Some ns =>
      match newClass with
      | VUndefined | VNotCallable _ => (false, w)
      | VFunction f =>
          let name := name_or name f in
          if decide (name = "") then (false, w)
          else
            let store := update_ns this (set_classList (<[name := f]> (ns_classList ns))) w in
            match classList_at ns name with
            | Some oldClass =>
                if decide (member_constructor name oldClass = fn_constructor f) then (true, w)
                else if ns_isScoped ns && bool_decide (is_Some (namespaces_at (ns_uri ns) w)) then
                  (false,
                   console_log ("GraphmlNamespace " +:+ ns_uri ns +:+
                                ": not allowed to change class " +:+ name +:+ " while scoped") w)
                else (true, store)
            | None => (true, store)
            end
      end
  | None => (false, w)
  end.

(** ** Strings: [lastIndexOf] and [slice] *)

Fixpoint lastIndexOf_from (c : ascii) (s : string) (i last : Z) : Z :=
  match s with
  | EmptyString => last
  | String a s' =>
      lastIndexOf_from c s' (i + 1) (if Ascii.eqb a c then i else last)
  end.

(** [s.lastIndexOf(c)] for a one-character search string; [-1] when absent. *)
Definition lastIndexOf (c : ascii) (s : string) : Z :=
  lastIndexOf_from c s 0 (-1).

(** [s.slice(start, end)]: negative positions count from the end, and
    both are clamped to the string. *)
Definition slice (s : string) (start end_ : Z) : string :=
  let len := Z.of_nat (String.length s) in
  let from := if (start <? 0)%Z then Z.max (len + start) 0 else Z.min start len in
  let to := if (end_ <? 0)%Z then Z.max (len + end_) 0 else Z.min end_ len in
  let span := Z.max (to - from) 0 in
  substring (Z.to_nat from) (Z.to_nat span) s.

Definition slash : ascii := "/"%char.

(** [className.slice(className.lastIndexOf("/")+1, className.length-3)],
    the key looked up in [window] by the [onload] handler. *)
Definition className_of (attr : string) : string :=
  slice attr (lastIndexOf slash attr + 1) (Z.of_nat (String.length attr) - 3).

(** [src.slice(0, src.lastIndexOf("/")+1)], the [folder] of a task. *)
Definition folder_of (src : string) : string :=
  slice src 0 (lastIndexOf slash src + 1).

(** ** GraphmlNamespaceClassLoader *)

(** [GraphmlNamespaceClassLoader.loader = function(src, namespace, folder)]:
    creates the element, installs both handlers and appends it to the
    page.  [src] is [undefined] when [shift] found the array empty. *)
Definition loader (src : option string) (namespace : option ref) (folder : string)
    (w : World) : World :=
  let script :=
    {| script_src := folder +:+ default "undefined" src;
       script_namespace := namespace;
       script_handlers := true |} in
  set_scripts (scripts w ++ [script]) w.

(** [a.shift()] on the array behind [a]. *)
Definition shift (a : aref) (w : World) : option string * World :=
  match arrays w !! a with
  | Some (x :: rest) => (Some x, set_arrays (<[a := rest]> (arrays w)) w)
  | _ => (None, w)
  end.

Definition array_length (a : aref) (w : World) : nat :=
  match arrays w !! a with
  | Some l => length l
  | None => 0
  end.

(** [GraphmlNamespaceClassLoader.loadNextClass] *)
Definition loadNextClass (w : World) : World :=
  match loaderList w with
  | entry :: rest =>
      let '(src, w1) := shift (entry_classList entry) w in
      let w2 := loader src (entry_namespace entry) (entry_folder entry) w1 in
      if decide (array_length (entry_classList entry) w2 = 0)
      then set_loaderList rest w2
      else w2
  | [] => w
  end.

(** [GraphmlNamespaceClassLoader.load = function(classArray, namespace)];
    [src] is the [src] attribute of the script being executed. *)
Definition load (src : string) (classArray : aref) (namespace : option ref)
    (w : World) : World :=
  let entry :=
    {| entry_namespace := namespace;
       entry_classList := classArray;
       entry_folder := folder_of src |} in
  let len := length (loaderList w) in
  let w1 := set_loaderList (loaderList w ++ [entry]) w in
  if decide (len = 0) then loadNextClass w1 else w1.

(** [function GraphmlNamespaceClassLoader(classArray, namespace)] *)
Definition GraphmlNamespaceClassLoader (src : string) (classArray : aref)
    (namespace : option ref) (w : World) : World :=
  if decide (array_length classArray w = 0) then w
  else load src classArray namespace w.

Definition without_handlers (s : Script) : Script :=
  {| script_src := script_src s; script_namespace := script_namespace s;
     script_handlers := false |}.

(** [script.onload = script.onreadystatechange = script.onerror = null] *)
Definition clear_handlers (i : nat) (w : World) : World :=
  match scripts w !! i with
  | Some s => set_scripts (<[i := without_handlers s]> (scripts w)) w
  | None => w
  end.

(** The [onload] handler of script [i]; [window] is the table of globals
    as the handler finds it: what [window[className]] yields for each
    name. *)
Definition onload (i : nat) (window : gmap string Value) (w : World) : World :=
  match scripts w !! i with
  | Some s =>
      if script_handlers s then
        let w1 := clear_handlers i w in
        let w2 :=
          match script_namespace s with
          | Some namespace =>
              let className := className_of (script_src s) in
              snd (setSpecificClass namespace None
                     (default VUndefined (window !! className)) w1)
          | None => w1
          end in
        loadNextClass w2
      else w
  | None => w
  end.

(** The [onerror] handler of script [i]. *)
Definition onerror (i : nat) (w : World) : World :=
  match scripts w !! i with
  | Some s =>
      if script_handlers s then loadNextClass (clear_handlers i w) else w
  | None => w
  end.

(** ** The constructor *)

(** The [attributes] argument of the constructor. *)
Record Attributes := {
  attr_classList : option aref;
  attr_unscoped : bool
}.

(** [attributes && attributes.unscoped === true] *)
Definition is_unscoped (attributes : option Attributes) : bool :=
  match attributes with
  | Some a => attr_unscoped a
  | None => false
  end.

(** [function GraphmlNamespace(uri, attributes)], run by [new] inside a
    script whose [src] attribute is [src]; returns the new instance. *)
Definition GraphmlNamespace (src : string) (u : string) (attributes : option Attributes)
    (w : World) : ref * World :=
  let this := length (heap w) in
  let w1 :=
    set_heap (heap w ++ [{| ns_uri := u; ns_classList := ∅; ns_isScoped := false |}]) w in
  let w2 :=
    match attributes with
    | Some {| attr_classList := Some classList |} =>
        GraphmlNamespaceClassLoader src classList (Some this) w1
    | _ => w1
    end in
  let unscoped := is_unscoped attributes in
  let w3 :=
    if negb unscoped then
      match GraphmlNamespace_get u w2 with
      | None => snd (scope this false w2)
      | Some _ =>
          console_log ("Namespace: not allowed to scope a new namespace that already is defined within the same scope - " +:+ u) w2
      end
    else w2 in
  (this, w3).

(** ** Executions

    What a page can do with the program: evaluate an array literal, call
    the constructor or one of the methods, call the loader, and let the
    browser fire the [onload] or [onerror] handler of a script whose
    handlers are still installed.  A call of [scope] that throws ends
    there; the page goes on from the state the call had reached. *)
Inductive Op :=
| OpArray (paths : list string)
| OpNew (src : string) (u : string) (attributes : option Attributes)
| OpScope (this : ref) (overwrite : bool)
| OpDescope (this : ref)
| OpSetNamespaceURI (this : ref) (u : string)
| OpSetSpecificClass (this : ref) (name : option string) (newClass : Value)
| OpLoad (src : string) (classArray : aref) (namespace : option ref)
| OpOnload (i : nat) (window : gmap string Value)
| OpOnerror (i : nat).

Definition step (w : World) (o : Op) : World :=
  match o with
  | OpArray paths => set_arrays (arrays w ++ [paths]) w
  | OpNew src u attributes => snd (GraphmlNamespace src u attributes w)
  | OpScope this overwrite => snd (scope this overwrite w)
  | OpDescope this => snd (descope this w)
  | OpSetNamespaceURI this u => snd (setNamespaceURI this u w)
  | OpSetSpecificClass this name newClass => snd (setSpecificClass this name newClass w)
  | OpLoad src classArray namespace => load src classArray namespace w
  | OpOnload i window => onload i window w
  | OpOnerror i => onerror i w
  end.

Definition run (ops : list Op) (w : World) : World := foldl step w ops.

(** The number of fetches in flight: scripts appended to the page whose
    completion handler has not fired yet. *)
Definition in_flight (w : World) : nat :=
  length (filter (fun s => script_handlers s = true) (scripts w)).

(** ** The remaining methods of GraphmlNamespace *)

(** [GraphmlNamespace.prototype.getScope] *)
Definition getScope (this : ref) (w : World) : bool :=
  match heap w !! this with
  | Some ns => ns_isScoped ns
  | None => false
  end.

(** [GraphmlNamespace.prototype.getNamespaceURI] *)
Definition getNamespaceURI (this : ref) (w : World) : option string :=
  ns_uri <$> heap w !! this.

(** [GraphmlNamespace.prototype.getClasses]: the mapping itself. *)
Definition getClasses (this : ref) (w : World) : option (gmap string JSFunction) :=
  ns_classList <$> heap w !! this.

(** [GraphmlNamespace.prototype.getSpecificClass = function(name)]:
    [this.classList[name]], [undefined] when there is none. *)
Definition getSpecificClass (this : ref) (name : string) (w : World) : Value :=
  match heap w !! this with
  | Some ns =>
      match classList_at ns name with
      | Some (OwnClass f) => VFunction f
      | Some InheritedMember => inherited_value name
      | None => VUndefined
      end
  | None => VUndefined
  end.

(** The loop of [setClasses]; [classlist] lists the properties of the
    argument in the order in which [for(var id in classlist)] visits
    them. *)
Fixpoint setClasses_loop (this : ref) (classlist : list (string * Value)) (w : World) : World :=
  match classlist with
  | [] => w
  | (id, c) :: rest =>
      setClasses_loop this rest (snd (setSpecificClass this (Some id) c w))
  end.

(** [GraphmlNamespace.prototype.setClasses = function(classlist)] *)
Definition setClasses (this : ref) (classlist : list (string * Value)) (w : World)
    : bool * World :=
  (true, setClasses_loop this classlist w).

(** The argument of [equals]: a falsy value, a truthy value whose
    [typeof] is not ["object"], an object whose [constructor] is not the
    constructor of the instances, or an instance. *)
Inductive EqualsArg :=
| EqFalsy
| EqNotObject
| EqOtherObject
| EqInstance (o : ref).

(** [GraphmlNamespace.prototype.equals = function(o)]; the instances of the
    model are all made by the same constructor. *)
Definition equals (this : ref) (o : EqualsArg) (w : World) : bool :=
  match o with
  | EqFalsy => false
  | EqNotObject => false
  | EqOtherObject => false
  | EqInstance r =>
      match heap w !! this, heap w !! r with
      | Some a, Some b => bool_decide (ns_uri a = ns_uri b)
      | _, _ => false
      end
  end.

(** * Vocabulary of the properties *)

(** ** Scenarios and sample values *)

(** [{unscoped: true}] *)
Definition unscoped_attributes : option Attributes :=
  Some {| attr_classList := None; attr_unscoped := true |}.

(** [{classList: a}] *)
Definition with_classList (a : aref) : option Attributes :=
  Some {| attr_classList := Some a; attr_unscoped := false |}.

(** A registry in which ["u"] is occupied by instance [0] while instance
    [1], constructed unscoped with the same identifier, is not in it. *)
Definition two_instances : World :=
  run [OpNew "" "u" None; OpNew "" "u" unscoped_attributes] empty_world.

(** Two ordinary functions: different values, both with [constructor]
    [Function]; and a generator function, whose [constructor] is not. *)
Definition class_f : JSFunction :=
  {| fn_id := 1; fn_name := "X"; fn_constructor := FunctionCtor |}.

Definition class_g : JSFunction :=
  {| fn_id := 2; fn_name := "X"; fn_constructor := FunctionCtor |}.

Definition class_h : JSFunction :=
  {| fn_id := 3; fn_name := "X"; fn_constructor := OtherCtor 0 |}.

(** A scoped namespace ["u"] holding [class_f] under ["X"], and the same
    with the namespace constructed unscoped. *)
Definition scoped_with_X : World :=
  run [OpNew "" "u" None;
       OpSetSpecificClass 0 (Some "X") (VFunction class_f)] empty_world.

Definition unscoped_with_X : World :=
  run [OpNew "" "u" unscoped_attributes;
       OpSetSpecificClass 0 (Some "X") (VFunction class_f)] empty_world.

Definition class_a : JSFunction :=
  {| fn_id := 10; fn_name := "a"; fn_constructor := FunctionCtor |}.

Definition class_b : JSFunction :=
  {| fn_id := 11; fn_name := "b"; fn_constructor := FunctionCtor |}.

Definition class_c : JSFunction :=
  {| fn_id := 12; fn_name := "c"; fn_constructor := FunctionCtor |}.

(** The globals once the scripts declaring [a], [b] and [c] have run. *)
Definition window_abc : gmap string Value :=
  {[ "a" := VFunction class_a; "b" := VFunction class_b; "c" := VFunction class_c ]}.

(** An array [["a.js", "b.js", "c.js"]] and a namespace ["ns://demo"]. *)
Definition demo_abc : World :=
  run [OpArray ["a.js"; "b.js"; "c.js"]; OpNew "lib/demo.js" "ns://demo" None]
      empty_world.

(** Paths with an extension of another length, as in the scenario of the
    specification. *)
Definition demo_impl : World :=
  run [OpArray ["a.impl"; "b.impl"];
       OpNew "demo.js" "ns://demo" (with_classList 0);
       OpOnload 0 window_abc;
       OpOnload 1 window_abc] empty_world.

(** The scenario with [".js"] paths: both classes end up under ["a"] and
    ["b"]. *)
Definition demo_js : World :=
  run [OpArray ["a.js"; "b.js"];
       OpNew "lib/demo.js" "ns://demo" (with_classList 0)] empty_world.

(** ** The registry against the flags *)

(** What C2 asks of a state: the flag of an instance is set exactly when
    the registry maps the instance's identifier to that instance, and no
    two instances with one identifier both have the flag set. *)
Definition scoped_iff_registered (w : World) : Prop :=
  forall n N, heap w !! n = Some N ->
    (ns_isScoped N = true <-> namespaces w !! ns_uri N = Some n).

Definition one_scoped_per_identifier (w : World) : Prop :=
  forall n m N M, heap w !! n = Some N -> heap w !! m = Some M ->
    ns_isScoped N = true -> ns_isScoped M = true ->
    ns_uri N = ns_uri M -> n = m.

(** The half that every execution keeps: an instance found in the
    registry under [U] has identifier [U] and has its flag set. *)
Definition registered_are_scoped (w : World) : Prop :=
  forall U n, namespaces w !! U = Some n ->
    exists N, heap w !! n = Some N /\ ns_uri N = U /\ ns_isScoped N = true.

(** The other half: an instance with its flag set is in the registry. *)
Definition scoped_are_registered (w : World) : Prop :=
  forall n N, heap w !! n = Some N -> ns_isScoped N = true ->
    namespaces w !! ns_uri N = Some n.

(** Both halves together. *)
Definition registry_agrees (w : World) : Prop :=
  registered_are_scoped w /\ scoped_are_registered w.

(** The slot of [this] is held by another instance. *)
Definition occupied_by_other (w : World) (this : ref) : bool :=
  match heap w !! this with
  | Some N =>
      match namespaces w !! ns_uri N with
      | Some m => negb (bool_decide (m = this))
      | None => false
      end
  | None => false
  end.

Definition held_by_other (w : World) (this : ref) : Prop :=
  exists N m, heap w !! this = Some N
              /\ namespaces w !! ns_uri N = Some m /\ m <> this.

(** An execution respects ownership when [descope], and [scope] without
    [overwrite], are never called on an instance whose slot is held by
    another instance. *)
Definition respects_ownership (w : World) (o : Op) : bool :=
  match o with
  | OpDescope this => negb (occupied_by_other w this)
  | OpScope this false => negb (occupied_by_other w this)
  | _ => true
  end.

Fixpoint respects_ownership_all (w : World) (ops : list Op) : bool :=
  match ops with
  | [] => true
  | o :: ops' => respects_ownership w o && respects_ownership_all (step w o) ops'
  end.

(** Worlds that agree on the registry and on the instances. *)
Definition same_core (w w' : World) : Prop :=
  namespaces w' = namespaces w /\ heap w' = heap w
  /\ undefined_keys w' = undefined_keys w.

(** ** Intermediate states and outcomes *)

(** The state after the first two statements of the constructor and the
    optional call of the loader. *)
Definition constructed (src u : string) (attributes : option Attributes) (w : World) : World :=
  let w1 :=
    set_heap (heap w ++ [{| ns_uri := u; ns_classList := ∅; ns_isScoped := false |}]) w in
  match attributes with
  | Some {| attr_classList := Some classList |} =>
      GraphmlNamespaceClassLoader src classList (Some (length (heap w))) w1
  | _ => w1
  end.

(** How a fetch ends. *)
Inductive Outcome :=
| Loaded (window : gmap string Value)
| Failed.

Definition complete (i : nat) (o : Outcome) (w : World) : World :=
  match o with
  | Loaded window => onload i window w
  | Failed => onerror i w
  end.

(** The registration step of the [onload] handler of a script with [src]
    attribute [attr], and nothing on failure or without a namespace. *)
Definition attempt (namespace : option ref) (attr : string) (o : Outcome) (w : World) : World :=
  match o, namespace with
  | Loaded window, Some n =>
      snd (setSpecificClass n None (default VUndefined (window !! className_of attr)) w)
  | _, _ => w
  end.

(** The script element that [loader] creates, and the same element once
    a handler has fired. *)
Definition fetching (folder src : string) (namespace : option ref) : Script :=
  {| script_src := folder +:+ src; script_namespace := namespace; script_handlers := true |}.

Definition fetched (folder src : string) (namespace : option ref) : Script :=
  {| script_src := folder +:+ src; script_namespace := namespace; script_handlers := false |}.

(** ** Paths *)

(** [c] occurs in [s]. *)
Fixpoint occurs (c : ascii) (s : string) : bool :=
  match s with
  | EmptyString => false
  | String a s' => Ascii.eqb a c || occurs c s'
  end.

(** A path prefix: empty, or ending in a slash. *)
Definition ends_dir (p : string) : Prop :=
  p = "" \/ exists q, p = q +:+ "/".

(** ** Further scenarios *)

(** One instance constructed with the identifier ["constructor"]: the
    constructor found [Object] under that name and left it unscoped. *)
Definition prototype_named : World :=
  run [OpNew "" "constructor" None] empty_world.

(** The first instance of ["u"] has lost its slot to [descope] on its
    unscoped twin, and ["v"] is held by a third instance. *)
Definition orphan_and_v : World :=
  run [OpNew "" "u" None; OpNew "" "u" unscoped_attributes; OpDescope 1;
       OpNew "" "v" None] empty_world.

(** ** Classes *)

(** The class mappings of all instances, by reference. *)
Definition classes_of (w : World) : list (gmap string JSFunction) :=
  ns_classList <$> heap w.

(** No instance holds a class under the empty name. *)
Definition classes_named (w : World) : Prop :=
  forall n N, heap w !! n = Some N -> ns_classList N !! "" = None.

(** An anonymous function. *)
Definition class_anonymous : JSFunction :=
  {| fn_id := 20; fn_name := ""; fn_constructor := FunctionCtor |}.

(** What a property of the argument of [setClasses] leaves under its key
    when the key was free: the value itself if it is a function, nothing
    otherwise. *)
Definition stored (c : Value) : Value :=
  match c with
  | VFunction f => VFunction f
  | _ => VUndefined
  end.

(** ** Draining *)

(** The handlers of the scripts [k], [k+1], ... fire one after the other
    with the outcomes [os]. *)
Fixpoint complete_all (k : nat) (os : list Outcome) (w : World) : World :=
  match os with
  | [] => w
  | o :: os' => complete_all (S k) os' (complete k o w)
  end.

(** The registration steps of consecutive paths of one task, as far as
    there are outcomes. *)
Fixpoint attempt_all (namespace : option ref) (folder : string) (paths : list string)
    (os : list Outcome) (w : World) : World :=
  match paths, os with
  | X :: paths', o :: os' =>
      attempt_all namespace folder paths' os' (attempt namespace (folder +:+ X) o w)
  | _, _ => w
  end.

(** The scripts of a task whose path [X] and then the paths [ys] have been
    dispatched, all but the last having completed. *)
Fixpoint in_order (folder : string) (namespace : option ref) (X : string)
    (ys : list string) : list Script :=
  match ys with
  | [] => [fetching folder X namespace]
  | Y :: ys' => fetched folder X namespace :: in_order folder namespace Y ys'
  end.

(** Two arrays and two namespaces, nothing loaded yet. *)
Definition two_tasks : World :=
  run [OpArray ["a.js"; "b.js"]; OpArray ["d.js"];
       OpNew "lib/one.js" "ns://one" None; OpNew "lib/two.js" "ns://two" None]
      empty_world.

(** An empty array, and one array of two paths for two namespaces. *)
Definition empty_array_world : World :=
  run [OpArray []; OpNew "lib/one.js" "ns://one" None] empty_world.

Definition shared_array : World :=
  run [OpArray ["a.js"; "b.js"];
       OpNew "one/ns.js" "ns://one" None; OpNew "two/ns.js" "ns://two" None]
      empty_world.

(** From [w] to [w'] every script element is still in its place with its
    [src] and namespace, and none that had lost its handlers has them
    again. *)
Definition scripts_kept (w w' : World) : Prop :=
  forall i s, scripts w !! i = Some s ->
    exists s', scripts w' !! i = Some s'
      /\ script_src s' = script_src s
      /\ script_namespace s' = script_namespace s
      /\ (script_handlers s = false -> script_handlers s' = false).

(** What a call of [loadNextClass] appends to the page: nothing when the
    queue is empty, else the script for the first path left in the array
    of the task at the front (for ["undefined"] when none is left). *)
Definition next_fetch (w : World) : list Script :=
  match loaderList w with
  | [] => []
  | e :: _ =>
      [fetching (entry_folder e)
         (default "undefined" (arrays w !! entry_classList e ≫= head))
         (entry_namespace e)]
  end.

(** * Properties *)

(** ** Field updates commute with the projections *)

Section WorldFacts.
Context (w : World).

Lemma update_ns_lookup_eq this f ns :
  heap w !! this = Some ns ->
  heap (update_ns this f w) !! this = Some (f ns).
Proof.
  intros H. unfold update_ns. rewrite H. simpl.
  apply list_lookup_insert_eq. by eapply lookup_lt_Some.
Qed.

Lemma update_ns_lookup_ne this f y :
  y <> this -> heap (update_ns this f w) !! y = heap w !! y.
Proof.
  intros H. unfold update_ns. destruct (heap w !! this); [|done].
  simpl. by apply list_lookup_insert_ne.
Qed.

Lemma update_ns_namespaces this f :
  namespaces (update_ns this f w) = namespaces w.
Proof. unfold update_ns. by destruct (heap w !! this). Qed.

Lemma update_ns_undefined_keys this f :
  undefined_keys (update_ns this f w) = undefined_keys w.
Proof. unfold update_ns. by destruct (heap w !! this). Qed.

Lemma update_ns_console this f :
  console (update_ns this f w) = console w.
Proof. unfold update_ns. by destruct (heap w !! this). Qed.

Lemma update_ns_loader this f :
  loaderList (update_ns this f w) = loaderList w
  /\ arrays (update_ns this f w) = arrays w
  /\ scripts (update_ns this f w) = scripts w.
Proof. unfold update_ns. by destruct (heap w !! this). Qed.

End WorldFacts.

(** ** Reading through the prototype chain *)

Lemma namespaces_at_own (w : World) (u : string) (n : ref) :
  namespaces w !! u = Some n -> namespaces_at u w = Some (SlotInstance n).
Proof. intros H. unfold namespaces_at. by rewrite H. Qed.

Lemma namespaces_at_missing (w : World) (u : string) :
  namespaces w !! u = None -> u ∉ undefined_keys w ->
  namespaces_at u w = (if inherited u then Some SlotInherited else None).
Proof. intros H Hu. unfold namespaces_at. by rewrite H, bool_decide_false. Qed.

Lemma namespaces_at_undefined (w : World) (u : string) :
  namespaces w !! u = None -> u ∈ undefined_keys w -> namespaces_at u w = None.
Proof. intros H Hu. unfold namespaces_at. by rewrite H, bool_decide_true. Qed.

Lemma namespaces_at_None (w : World) (u : string) :
  namespaces_at u w = None
  <-> namespaces w !! u = None /\ (u ∈ undefined_keys w \/ inherited u = false).
Proof.
  unfold namespaces_at. destruct (namespaces w !! u).
  { split; [done|]. by intros []. }
  destruct (bool_decide_reflect (u ∈ undefined_keys w)) as [Hu|Hu].
  { split; [|done]. intros _. split; [done|by left]. }
  destruct (inherited u).
  - split; [done|]. intros [_ [?|?]]; done.
  - split; [|done]. intros _. split; [done|by right].
Qed.

Lemma namespaces_at_None_own (w : World) (u : string) :
  namespaces_at u w = None -> namespaces w !! u = None.
Proof. intros H. by apply namespaces_at_None in H as [? _]. Qed.

Lemma namespaces_at_instance (w : World) (u : string) (n : ref) :
  namespaces_at u w = Some (SlotInstance n) <-> namespaces w !! u = Some n.
Proof.
  unfold namespaces_at. destruct (namespaces w !! u) as [m|].
  - split; intros [= ->]; done.
  - destruct (bool_decide (u ∈ undefined_keys w)); [by split|].
    destruct (inherited u); by split.
Qed.

Lemma namespaces_at_same (w w' : World) (u : string) :
  namespaces w' = namespaces w -> undefined_keys w' = undefined_keys w ->
  namespaces_at u w' = namespaces_at u w.
Proof. intros H H'. unfold namespaces_at. by rewrite H, H'. Qed.

Lemma namespaces_at_core (w w' : World) (u : string) :
  same_core w w' -> namespaces_at u w' = namespaces_at u w.
Proof. intros (H & _ & H'). by apply namespaces_at_same. Qed.

Lemma classList_at_own (N : Namespace) (name : string) (f : JSFunction) :
  ns_classList N !! name = Some f -> classList_at N name = Some (OwnClass f).
Proof. intros H. unfold classList_at. by rewrite H. Qed.

Lemma classList_at_None (N : Namespace) (name : string) :
  classList_at N name = None <-> ns_classList N !! name = None /\ inherited name = false.
Proof.
  unfold classList_at. destruct (ns_classList N !! name); [by split; [|intros []]|].
  destruct (inherited name); by split; [|intros []].
Qed.

(** ** descope *)

(** What [descope] does to the registry and to the instances. *)
Lemma descope_fields (w : World) (n : ref) (N : Namespace) :
  heap w !! n = Some N ->
  fst (descope n w) = true
  /\ namespaces (snd (descope n w)) = delete (ns_uri N) (namespaces w)
  /\ heap (snd (descope n w)) !! n = Some (set_isScoped false N)
  /\ (forall y, y <> n -> heap (snd (descope n w)) !! y = heap w !! y).
Proof.
  intros Hn. unfold descope. rewrite Hn. simpl.
  rewrite update_ns_namespaces. simpl.
  split; [done|]. split; [done|].
  split; [by apply update_ns_lookup_eq|].
  intros y Hy. by rewrite update_ns_lookup_ne.
Qed.

Lemma descope_undefined_keys (w : World) (n : ref) (N : Namespace) :
  heap w !! n = Some N ->
  undefined_keys (snd (descope n w)) = undefined_keys w ∖ {[ns_uri N]}.
Proof.
  intros Hn. unfold descope. rewrite Hn. simpl.
  by rewrite update_ns_undefined_keys.
Qed.



(** ** scope *)

(** Whatever [overwrite] is, an unscoped instance whose slot is held by
    another instance ends up in the slot: without [overwrite] the local
    [willScope] keeps its initial value [true]. *)
Lemma scope_occupied_without_overwrite (w : World) (n m : ref) (N : Namespace) :
  heap w !! n = Some N ->
  ns_isScoped N = false ->
  namespaces w !! ns_uri N = Some m ->
  m <> n ->
  fst (scope n false w) = Returned true
  /\ namespaces (snd (scope n false w)) !! ns_uri N = Some n
  /\ heap (snd (scope n false w)) !! n = Some (set_isScoped true N)
  /\ heap (snd (scope n false w)) !! m = heap w !! m.
Proof.
  intros Hn Hs Hm Hne. unfold scope. rewrite Hn, Hs. simpl.
  rewrite (namespaces_at_own w _ m Hm).
  rewrite decide_False by congruence. simpl.
  set (w' := update_ns n _ _).
  assert (Hn' : heap w' !! n = Some (set_isScoped true N)).
  { subst w'. by apply update_ns_lookup_eq. }
  unfold scope_return. rewrite Hn'. simpl.
  split; [done|]. subst w'. rewrite update_ns_namespaces. simpl.
  split; [apply lookup_insert_eq|]. split; [done|].
  by rewrite update_ns_lookup_ne.
Qed.

(** C1.  In the state [two_instances] the identifier ["u"] is occupied by
    instance [0] and instance [1] is unscoped; [scope] with [overwrite]
    false on instance [1] returns [true], sets its flag and replaces the
    occupant in the registry, while instance [0] keeps its flag. *)
Theorem scope_without_overwrite_takes_slot :
  namespaces two_instances !! "u" = Some 0
  /\ heap two_instances !! 1
     = Some {| ns_uri := "u"; ns_classList := ∅; ns_isScoped := false |}
  /\ fst (scope 1 false two_instances) = Returned true
  /\ heap (snd (scope 1 false two_instances)) !! 1
     = Some {| ns_uri := "u"; ns_classList := ∅; ns_isScoped := true |}
  /\ heap (snd (scope 1 false two_instances)) !! 0
     = Some {| ns_uri := "u"; ns_classList := ∅; ns_isScoped := true |}
  /\ namespaces (snd (scope 1 false two_instances)) !! "u" = Some 1.
Proof. vm_compute. repeat split. Qed.

(** ** setNamespaceURI *)



(** ** The loader leaves the registry, the instances and the console alone *)

Lemma shift_frame (a : aref) (w : World) :
  namespaces (snd (shift a w)) = namespaces w
  /\ heap (snd (shift a w)) = heap w
  /\ console (snd (shift a w)) = console w
  /\ loaderList (snd (shift a w)) = loaderList w
  /\ scripts (snd (shift a w)) = scripts w.
Proof. unfold shift. destruct (arrays w !! a) as [[|x rest]|]; done. Qed.

Lemma loadNextClass_frame (w : World) :
  namespaces (loadNextClass w) = namespaces w
  /\ heap (loadNextClass w) = heap w
  /\ console (loadNextClass w) = console w.
Proof.
  unfold loadNextClass. destruct (loaderList w) as [|entry rest]; [done|].
  destruct (shift_frame (entry_classList entry) w) as (H1 & H2 & H3 & _).
  destruct (shift (entry_classList entry) w) as [src w1]. simpl in *.
  case_decide; simpl; done.
Qed.

Lemma load_frame (src : string) (a : aref) (namespace : option ref) (w : World) :
  namespaces (load src a namespace w) = namespaces w
  /\ heap (load src a namespace w) = heap w
  /\ console (load src a namespace w) = console w.
Proof.
  unfold load. case_decide; [|done].
  by destruct (loadNextClass_frame
                 (set_loaderList
                    (loaderList w ++
                       [{| entry_namespace := namespace; entry_classList := a;
                           entry_folder := folder_of src |}]) w))
    as (-> & -> & ->).
Qed.

Lemma GraphmlNamespaceClassLoader_frame (src : string) (a : aref)
    (namespace : option ref) (w : World) :
  namespaces (GraphmlNamespaceClassLoader src a namespace w) = namespaces w
  /\ heap (GraphmlNamespaceClassLoader src a namespace w) = heap w
  /\ console (GraphmlNamespaceClassLoader src a namespace w) = console w.
Proof.
  unfold GraphmlNamespaceClassLoader. case_decide; [done|apply load_frame].
Qed.

Lemma shift_undefined_keys (a : aref) (w : World) :
  undefined_keys (snd (shift a w)) = undefined_keys w.
Proof. unfold shift. destruct (arrays w !! a) as [[|x rest]|]; done. Qed.

Lemma loadNextClass_undefined_keys (w : World) :
  undefined_keys (loadNextClass w) = undefined_keys w.
Proof.
  unfold loadNextClass. destruct (loaderList w) as [|entry rest]; [done|].
  pose proof (shift_undefined_keys (entry_classList entry) w) as H.
  destruct (shift (entry_classList entry) w) as [src w1]. simpl in *.
  case_decide; simpl; done.
Qed.

Lemma load_undefined_keys (src : string) (a : aref) (namespace : option ref) (w : World) :
  undefined_keys (load src a namespace w) = undefined_keys w.
Proof.
  unfold load. case_decide; [|done].
  by rewrite loadNextClass_undefined_keys.
Qed.

Lemma GraphmlNamespaceClassLoader_undefined_keys (src : string) (a : aref)
    (namespace : option ref) (w : World) :
  undefined_keys (GraphmlNamespaceClassLoader src a namespace w) = undefined_keys w.
Proof.
  unfold GraphmlNamespaceClassLoader. case_decide; [done|apply load_undefined_keys].
Qed.

(** ** The constructor *)

Lemma constructed_undefined_keys (src u : string) (attributes : option Attributes)
    (w : World) :
  undefined_keys (constructed src u attributes w) = undefined_keys w.
Proof.
  unfold constructed. destruct attributes as [[[a|] b]|]; try done.
  by rewrite GraphmlNamespaceClassLoader_undefined_keys.
Qed.

Lemma constructed_get (src u u' : string) (attributes : option Attributes) (w : World) :
  namespaces_at u' (constructed src u attributes w) = namespaces_at u' w.
Proof.
  apply namespaces_at_same; [|apply constructed_undefined_keys].
  unfold constructed. destruct attributes as [[[a|] b]|]; try done.
  match goal with
  | |- context [GraphmlNamespaceClassLoader ?s ?a ?n ?w] =>
      by destruct (GraphmlNamespaceClassLoader_frame s a n w) as (-> & _)
  end.
Qed.

Lemma constructed_frame (src u : string) (attributes : option Attributes) (w : World) :
  namespaces (constructed src u attributes w) = namespaces w
  /\ heap (constructed src u attributes w)
     = heap w ++ [{| ns_uri := u; ns_classList := ∅; ns_isScoped := false |}]
  /\ console (constructed src u attributes w) = console w.
Proof.
  unfold constructed. destruct attributes as [[[a|] b]|]; try done.
  match goal with
  | |- context [GraphmlNamespaceClassLoader ?s ?a ?n ?w] =>
      by destruct (GraphmlNamespaceClassLoader_frame s a n w) as (-> & -> & ->)
  end.
Qed.

(** Construction on a free identifier: the new instance takes the slot. *)
Lemma GraphmlNamespace_free (src u : string) (attributes : option Attributes) (w : World) :
  GraphmlNamespace_get u w = None ->
  is_unscoped attributes = false ->
  fst (GraphmlNamespace src u attributes w) = length (heap w)
  /\ namespaces (snd (GraphmlNamespace src u attributes w))
     = <[u := length (heap w)]> (namespaces w)
  /\ heap (snd (GraphmlNamespace src u attributes w))
     = heap w ++ [{| ns_uri := u; ns_classList := ∅; ns_isScoped := true |}]
  /\ console (snd (GraphmlNamespace src u attributes w))
     = console w ++ ["Namespace " +:+ u +:+ ": adding oneself to the current scope"].
Proof.
  unfold GraphmlNamespace_get.
  intros Hfree Hun. unfold GraphmlNamespace. fold (constructed src u attributes w).
  destruct (constructed_frame src u attributes w) as (Hr & Hh & Hc).
  rewrite Hun. simpl. unfold GraphmlNamespace_get.
  rewrite constructed_get, Hfree.
  split; [done|].
  set (c := constructed src u attributes w) in *.
  set (this := length (heap w)).
  assert (Hthis : heap c !! this
                  = Some {| ns_uri := u; ns_classList := ∅; ns_isScoped := false |}).
  { rewrite Hh. subst this. by apply list_lookup_middle. }
  unfold scope. rewrite Hthis. simpl. subst c.
  rewrite constructed_get, Hfree.
  set (c := constructed src u attributes w) in *.
  set (c' := update_ns this _ _).
  assert (Hthis' : heap c' !! this
                   = Some {| ns_uri := u; ns_classList := ∅; ns_isScoped := true |}).
  { subst c'.
    exact (update_ns_lookup_eq (store_instance _ _ c) this (set_isScoped true) _ Hthis). }
  unfold scope_return. rewrite Hthis'. simpl.
  subst c'. rewrite update_ns_namespaces, update_ns_console. simpl.
  rewrite Hc, Hr. split; [done|]. split; [|done].
  unfold update_ns. simpl. rewrite Hthis. simpl. rewrite Hh.
  subst this. rewrite insert_app_r_alt by lia.
  by rewrite Nat.sub_diag.
Qed.

(** Construction on an occupied identifier: nothing but the console line. *)
Lemma GraphmlNamespace_occupied (src u : string) (attributes : option Attributes)
    (w : World) (slot : Slot) :
  GraphmlNamespace_get u w = Some slot ->
  is_unscoped attributes = false ->
  fst (GraphmlNamespace src u attributes w) = length (heap w)
  /\ namespaces (snd (GraphmlNamespace src u attributes w)) = namespaces w
  /\ heap (snd (GraphmlNamespace src u attributes w))
     = heap w ++ [{| ns_uri := u; ns_classList := ∅; ns_isScoped := false |}]
  /\ console (snd (GraphmlNamespace src u attributes w))
     = console w ++ ["Namespace: not allowed to scope a new namespace that already is defined within the same scope - " +:+ u].
Proof.
  unfold GraphmlNamespace_get.
  intros Hocc Hun. unfold GraphmlNamespace. fold (constructed src u attributes w).
  destruct (constructed_frame src u attributes w) as (Hr & Hh & Hc).
  rewrite Hun. simpl. unfold GraphmlNamespace_get.
  rewrite constructed_get, Hocc. simpl.
  by rewrite Hr, Hh, Hc.
Qed.

(** C7, as stated for every identifier, fails at the identifiers that
    name a member of [Object.prototype]: constructed with "constructor"
    in the empty registry, the first namespace finds the slot occupied by
    the inherited member and stays unscoped, and so does the second;
    [GraphmlNamespace.get("constructor")] returns the inherited member,
    not the first instance. *)
Lemma construction_under_prototype_name :
  let c1 := GraphmlNamespace "" "constructor" None empty_world in
  let c2 := GraphmlNamespace "" "constructor" None (snd c1) in
  is_unscoped None = false
  /\ fst c1 = 0 /\ fst c2 = 1
  /\ heap (snd c2) !! fst c1
     = Some {| ns_uri := "constructor"; ns_classList := ∅; ns_isScoped := false |}
  /\ getScope (fst c1) (snd c2) = false
  /\ namespaces (snd c2) = ∅
  /\ GraphmlNamespace_get "constructor" (snd c2) = Some SlotInherited
  /\ GraphmlNamespace_get "constructor" (snd c2) <> Some (SlotInstance (fst c1)).
Proof. repeat split; try reflexivity. discriminate. Qed.

(** C7, amended.  Take any state in which [GraphmlNamespace.get(U)] is
    [undefined] (no instance is registered under [U] and [U] names no
    member of [Object.prototype]), construct a first namespace with [U]
    and then a second one with [U], neither marked unscoped (class lists
    are arbitrary).  The two instances are distinct, the second has
    [isScoped = false], the first has [isScoped = true],
    [GraphmlNamespace.get(U)] returns the first, and the second
    construction completes having written exactly one line, the conflict
    report, to the console. *)
Theorem second_construction_stays_unscoped
    (w : World) (src1 src2 U : string) (a1 a2 : option Attributes) :
  GraphmlNamespace_get U w = None ->
  is_unscoped a1 = false ->
  is_unscoped a2 = false ->
  let c1 := GraphmlNamespace src1 U a1 w in
  let c2 := GraphmlNamespace src2 U a2 (snd c1) in
  fst c1 <> fst c2
  /\ heap (snd c2) !! fst c2
     = Some {| ns_uri := U; ns_classList := ∅; ns_isScoped := false |}
  /\ heap (snd c2) !! fst c1
     = Some {| ns_uri := U; ns_classList := ∅; ns_isScoped := true |}
  /\ GraphmlNamespace_get U (snd c2) = Some (SlotInstance (fst c1))
  /\ console (snd c2)
     = console (snd c1) ++ ["Namespace: not allowed to scope a new namespace that already is defined within the same scope - " +:+ U].
Proof.
  intros Hfree H1 H2 c1 c2.
  destruct (GraphmlNamespace_free src1 U a1 w Hfree H1) as (Hn1 & Hr1 & Hh1 & _).
  fold c1 in Hn1, Hr1, Hh1.
  assert (Hocc : GraphmlNamespace_get U (snd c1) = Some (SlotInstance (fst c1))).
  { apply namespaces_at_own. rewrite Hr1, Hn1. apply lookup_insert_eq. }
  destruct (GraphmlNamespace_occupied src2 U a2 (snd c1) _ Hocc H2)
    as (Hn2 & Hr2 & Hh2 & Hc2).
  fold c2 in Hn2, Hr2, Hh2, Hc2.
  assert (Hlen : length (heap (snd c1)) = S (length (heap w))).
  { rewrite Hh1, length_app. simpl. lia. }
  split; [lia|].
  split; [rewrite Hh2, Hn2; by apply list_lookup_middle|].
  split.
  { rewrite Hh2, Hh1, Hn1. rewrite lookup_app_l by (rewrite length_app; simpl; lia).
    by apply list_lookup_middle. }
  split; [|exact Hc2].
  apply namespaces_at_own. rewrite Hr2, Hr1, Hn1. apply lookup_insert_eq.
Qed.

Lemma second_construction_stays_unscoped_witness :
  let c1 := GraphmlNamespace "" "ns://demo" None empty_world in
  let c2 := GraphmlNamespace "" "ns://demo" None (snd c1) in
  fst c1 = 0 /\ fst c2 = 1
  /\ heap (snd c2) !! 1
     = Some {| ns_uri := "ns://demo"; ns_classList := ∅; ns_isScoped := false |}
  /\ GraphmlNamespace_get "ns://demo" (snd c2) = Some (SlotInstance 0).
Proof.
  pose proof (second_construction_stays_unscoped empty_world "" "" "ns://demo"
                None None eq_refl eq_refl eq_refl) as (_ & H2 & _ & H4 & _).
  split; [reflexivity|]. split; [reflexivity|].
  split; [exact H2|exact H4].
Defined.

(** ** setSpecificClass *)

(** C3, as stated, fails: on the scoped namespace [setSpecificClass] with
    the different function [class_g] returns [true], not [false]; on the
    unscoped namespace it returns [true] but the mapping still holds
    [class_f], not [class_g]. *)
Lemma setSpecificClass_different_function_accepted :
  class_g <> class_f
  /\ heap scoped_with_X !! 0
     = Some {| ns_uri := "u"; ns_classList := {["X" := class_f]}; ns_isScoped := true |}
  /\ GraphmlNamespace_get "u" scoped_with_X = Some (SlotInstance 0)
  /\ fst (setSpecificClass 0 (Some "X") (VFunction class_g) scoped_with_X) = true
  /\ heap unscoped_with_X !! 0
     = Some {| ns_uri := "u"; ns_classList := {["X" := class_f]}; ns_isScoped := false |}
  /\ heap (snd (setSpecificClass 0 (Some "X") (VFunction class_g) unscoped_with_X)) !! 0
     = Some {| ns_uri := "u"; ns_classList := {["X" := class_f]}; ns_isScoped := false |}.
Proof. split; [discriminate|]. vm_compute. repeat split. Qed.

(** C3, amended.  Let a namespace hold [f] under the name [X] and let
    [setSpecificClass] be called with [X] and a function [g].
    - If [f.constructor === g.constructor] (as for any two ordinary
      functions) the call returns [true] and changes nothing.
    - Otherwise, if the namespace has [isScoped] set and
      [document.namespaces] reads as an object under its identifier (an
      instance is registered there, or the identifier names a member of
      [Object.prototype]), the call returns [false] and every instance is
      as before, so [X] still maps to [f].
    - Otherwise ([isScoped] false, or [document.namespaces] reads as
      [undefined] under the identifier) the call returns [true] and [X]
      maps to [g]. *)
Theorem setSpecificClass_overwrite
    (w : World) (n : ref) (N : Namespace) (X : string) (f g : JSFunction) :
  heap w !! n = Some N ->
  X <> "" ->
  ns_classList N !! X = Some f ->
  let r := setSpecificClass n (Some X) (VFunction g) w in
  (fn_constructor f = fn_constructor g -> r = (true, w))
  /\ (fn_constructor f <> fn_constructor g ->
      ns_isScoped N = true ->
      is_Some (GraphmlNamespace_get (ns_uri N) w) ->
      fst r = false /\ heap (snd r) = heap w /\ namespaces (snd r) = namespaces w)
  /\ (fn_constructor f <> fn_constructor g ->
      ns_isScoped N = false \/ GraphmlNamespace_get (ns_uri N) w = None ->
      fst r = true
      /\ heap (snd r) !! n = Some (set_classList (<[X := g]> (ns_classList N)) N)
      /\ namespaces (snd r) = namespaces w).
Proof.
  intros Hn HX Hf r. subst r. unfold GraphmlNamespace_get, setSpecificClass. rewrite Hn.
  unfold name_or. destruct (decide (X = "")) as [?|_]; [done|].
  destruct (decide (X = "")) as [?|_]; [done|].
  rewrite (classList_at_own N X f Hf). simpl.
  split; [|split].
  - intros Hc. by rewrite decide_True.
  - intros Hc Hs Hreg. rewrite decide_False by done.
    rewrite Hs, bool_decide_true by done. done.
  - intros Hc Hor. rewrite decide_False by done.
    assert (ns_isScoped N && bool_decide (is_Some (namespaces_at (ns_uri N) w)) = false) as ->.
    { destruct Hor as [->| ->]; [done|].
      rewrite bool_decide_false; [apply andb_false_r|].
      by intros [? ?]. }
    simpl. split; [done|]. split; [by apply update_ns_lookup_eq|].
    apply update_ns_namespaces.
Qed.

Lemma setSpecificClass_overwrite_witness :
  setSpecificClass 0 (Some "X") (VFunction class_g) scoped_with_X = (true, scoped_with_X)
  /\ fst (setSpecificClass 0 (Some "X") (VFunction class_h) scoped_with_X) = false
  /\ heap (snd (setSpecificClass 0 (Some "X") (VFunction class_h) scoped_with_X))
     = heap scoped_with_X
  /\ fst (setSpecificClass 0 (Some "X") (VFunction class_h) unscoped_with_X) = true
  /\ heap (snd (setSpecificClass 0 (Some "X") (VFunction class_h) unscoped_with_X)) !! 0
     = Some {| ns_uri := "u"; ns_classList := <["X" := class_h]> {["X" := class_f]};
               ns_isScoped := false |}.
Proof.
  pose proof (setSpecificClass_overwrite scoped_with_X 0
    {| ns_uri := "u"; ns_classList := {["X" := class_f]}; ns_isScoped := true |}
    "X" class_f class_g eq_refl ltac:(discriminate) eq_refl) as (H1 & _ & _).
  pose proof (setSpecificClass_overwrite scoped_with_X 0
    {| ns_uri := "u"; ns_classList := {["X" := class_f]}; ns_isScoped := true |}
    "X" class_f class_h eq_refl ltac:(discriminate) eq_refl) as (_ & H2 & _).
  pose proof (setSpecificClass_overwrite unscoped_with_X 0
    {| ns_uri := "u"; ns_classList := {["X" := class_f]}; ns_isScoped := false |}
    "X" class_f class_h eq_refl ltac:(discriminate) eq_refl) as (_ & _ & H3).
  split; [exact (H1 eq_refl)|].
  destruct (H2 ltac:(discriminate) eq_refl (ex_intro _ (SlotInstance 0) eq_refl))
    as (H2a & H2b & _).
  destruct (H3 ltac:(discriminate) (or_introl eq_refl)) as (H3a & H3b & _).
  exact (conj H2a (conj H2b (conj H3a H3b))).
Defined.

(** ** The registry and the [isScoped] flags along executions *)

Lemma occupied_by_other_false (w : World) (this : ref) :
  occupied_by_other w this = false -> ~ held_by_other w this.
Proof.
  unfold occupied_by_other. intros H (N & m & HN & Hm & Hne).
  rewrite HN, Hm in H. by rewrite bool_decide_false in H.
Qed.

Lemma same_core_refl w : same_core w w.
Proof. done. Qed.

Lemma same_core_trans w1 w2 w3 : same_core w1 w2 -> same_core w2 w3 -> same_core w1 w3.
Proof. intros (H1 & H2 & H3) (H4 & H5 & H6). repeat split; congruence. Qed.

Lemma scope_return_core this w : same_core w (snd (scope_return this w)).
Proof.
  unfold scope_return. destruct (heap w !! this) as [ns|]; [|done].
  by destruct (ns_isScoped ns).
Qed.

Lemma loadNextClass_core w : same_core w (loadNextClass w).
Proof.
  destruct (loadNextClass_frame w) as (? & ? & _).
  pose proof (loadNextClass_undefined_keys w). by repeat split.
Qed.

Lemma load_core src a namespace w : same_core w (load src a namespace w).
Proof.
  destruct (load_frame src a namespace w) as (? & ? & _).
  pose proof (load_undefined_keys src a namespace w). by repeat split.
Qed.

Lemma clear_handlers_core i w : same_core w (clear_handlers i w).
Proof. unfold clear_handlers. by destruct (scripts w !! i). Qed.

Section Invariant.
Context (w : World).
Hypothesis HI : registered_are_scoped w.

Lemma registered_same_core w' : same_core w w' -> registered_are_scoped w'.
Proof. intros (Hr & Hh & _) U n. rewrite Hr, Hh. apply HI. Qed.

(** The instance registered under a key other than its own identifier
    cannot be [this]. *)
Lemma registered_elsewhere this N U n :
  heap w !! this = Some N -> U <> ns_uri N ->
  namespaces w !! U = Some n -> n <> this.
Proof.
  intros Hthis HU Hn ->. destruct (HI _ _ Hn) as (N' & HN' & Huri & _).
  congruence.
Qed.

(** [namespaces[uri] = this; this.isScoped = true] *)
Lemma registered_register this N :
  heap w !! this = Some N ->
  registered_are_scoped
    (update_ns this (set_isScoped true) (store_instance (ns_uri N) this w)).
Proof.
  intros Hthis U n. rewrite update_ns_namespaces. simpl.
  destruct (decide (U = ns_uri N)) as [->|HU].
  - rewrite lookup_insert_eq. intros [= <-].
    exists (set_isScoped true N). split; [|done].
    exact (update_ns_lookup_eq (store_instance _ _ w) this _ N Hthis).
  - rewrite lookup_insert_ne by done. intros Hn.
    rewrite update_ns_lookup_ne by (by eapply registered_elsewhere).
    by apply HI.
Qed.

Lemma registered_descope this : registered_are_scoped (snd (descope this w)).
Proof.
  unfold descope. destruct (heap w !! this) as [N|] eqn:Hthis; [|done].
  simpl. intros U n. rewrite update_ns_namespaces. simpl.
  destruct (decide (U = ns_uri N)) as [->|HU].
  - by rewrite lookup_delete_eq.
  - rewrite lookup_delete_ne by done. intros Hn.
    rewrite update_ns_lookup_ne by (by eapply registered_elsewhere).
    by apply HI.
Qed.

Lemma registered_setSpecificClass this name newClass :
  registered_are_scoped (snd (setSpecificClass this name newClass w)).
Proof.
  assert (Hstore : forall c N, heap w !! this = Some N ->
            registered_are_scoped (update_ns this (set_classList c) w)).
  { intros c N Hthis U n. rewrite update_ns_namespaces. intros Hn.
    destruct (HI _ _ Hn) as (N' & HN' & Huri & Hs).
    destruct (decide (n = this)) as [->|Hne].
    - exists (set_classList c N'). split; [|done].
      by apply update_ns_lookup_eq.
    - exists N'. by rewrite update_ns_lookup_ne. }
  unfold setSpecificClass. destruct (heap w !! this) as [N|] eqn:Hthis; [|done].
  destruct newClass as [| |f]; try done.
  case_decide; [done|].
  destruct (classList_at N (name_or name f)) as [old|]; [|by eapply Hstore].
  case_decide; [done|].
  destruct (ns_isScoped N && _); [done|by eapply Hstore].
Qed.

Lemma registered_setNamespaceURI this u :
  registered_are_scoped (snd (setNamespaceURI this u w)).
Proof.
  unfold setNamespaceURI. destruct (heap w !! this) as [N|] eqn:Hthis; [|done].
  case_decide as Hu; [done|].
  destruct (ns_isScoped N) eqn:Hs.
  - destruct (namespaces_at (ns_uri N) w) as [m|] eqn:Hold; [done|].
    simpl. intros U n. rewrite update_ns_namespaces. simpl.
    destruct (decide (U = ns_uri N)) as [->|HU]; [by rewrite lookup_delete_eq|].
    rewrite lookup_delete_ne by done.
    destruct (decide (U = u)) as [->|HU']; [by rewrite lookup_delete_eq|].
    rewrite lookup_delete_ne by done. intros Hn.
    rewrite update_ns_lookup_ne by (by eapply registered_elsewhere).
    by apply HI.
  - simpl. intros U n. rewrite update_ns_namespaces. intros Hn.
    destruct (HI _ _ Hn) as (N' & HN' & Huri & Hs').
    assert (n <> this) by (intros ->; congruence).
    exists N'. by rewrite update_ns_lookup_ne.
Qed.
End Invariant.

Lemma descope_true (this : ref) (w : World) : fst (descope this w) = true.
Proof. unfold descope. by destruct (heap w !! this). Qed.

Lemma descope_heap_ne (this y : ref) (w : World) :
  y <> this -> heap (snd (descope this w)) !! y = heap w !! y.
Proof.
  intros Hy. unfold descope. destruct (heap w !! this); [|done].
  simpl. by rewrite update_ns_lookup_ne.
Qed.

Lemma registered_scope (w : World) (this : ref) (overwrite : bool) :
  registered_are_scoped w -> registered_are_scoped (snd (scope this overwrite w)).
Proof.
  intros HI. unfold scope. destruct (heap w !! this) as [N|] eqn:Hthis; [|done].
  destruct (ns_isScoped N) eqn:Hs; simpl.
  { eapply registered_same_core; [done|apply scope_return_core]. }
  destruct (namespaces_at (ns_uri N) w) as [old|] eqn:Hold.
  - case_decide as Hne.
    + simpl. intros U n. rewrite update_ns_namespaces. simpl. intros Hn.
      destruct (HI _ _ Hn) as (N' & HN' & Huri & Hs').
      destruct (decide (n = this)) as [->|Hn'].
      * exists (set_isScoped true N'). split; [|done].
        exact (update_ns_lookup_eq (console_log _ w) this _ N' HN').
      * exists N'. by rewrite update_ns_lookup_ne.
    + destruct overwrite; [destruct old as [old|]|]; simpl.
      * rewrite descope_true.
        eapply registered_same_core; [|apply scope_return_core].
        apply registered_register.
        -- by apply registered_descope.
        -- rewrite descope_heap_ne by congruence. exact Hthis.
      * by eapply registered_same_core.
      * eapply registered_same_core; [|apply scope_return_core].
        by apply (registered_register (console_log _ w) HI).
  - eapply registered_same_core; [|apply scope_return_core].
    by apply registered_register.
Qed.

Lemma registered_constructed (src u : string) (attributes : option Attributes) (w : World) :
  registered_are_scoped w -> registered_are_scoped (constructed src u attributes w).
Proof.
  intros HI U n. destruct (constructed_frame src u attributes w) as (-> & -> & _).
  intros Hn. destruct (HI _ _ Hn) as (N & HN & ?). exists N. split; [|done].
  rewrite lookup_app_l; [done|by eapply lookup_lt_Some].
Qed.

Lemma registered_GraphmlNamespace (src u : string) (attributes : option Attributes) (w : World) :
  registered_are_scoped w ->
  registered_are_scoped (snd (GraphmlNamespace src u attributes w)).
Proof.
  intros HI. unfold GraphmlNamespace. fold (constructed src u attributes w).
  pose proof (registered_constructed src u attributes w HI) as HI'.
  simpl. destruct (negb (is_unscoped attributes)); [|done].
  destruct (GraphmlNamespace_get u _); [done|].
  by apply registered_scope.
Qed.

Lemma registered_step (w : World) (o : Op) :
  registered_are_scoped w -> registered_are_scoped (step w o).
Proof.
  intros HI. destruct o as [paths|src u a|this ov|this|this u|this name c|src a ns|i window|i]; simpl.
  - done.
  - by apply registered_GraphmlNamespace.
  - by apply registered_scope.
  - by apply registered_descope.
  - by apply registered_setNamespaceURI.
  - by apply registered_setSpecificClass.
  - eapply registered_same_core; [done|apply load_core].
  - unfold onload. destruct (scripts w !! i) as [s|]; [|done].
    destruct (script_handlers s); [|done].
    eapply registered_same_core; [|apply loadNextClass_core].
    destruct (script_namespace s) as [namespace|].
    + apply registered_setSpecificClass.
      eapply registered_same_core; [done|apply clear_handlers_core].
    + eapply registered_same_core; [done|apply clear_handlers_core].
  - unfold onerror. destruct (scripts w !! i) as [s|]; [|done].
    destruct (script_handlers s); [|done].
    eapply registered_same_core; [done|].
    eapply same_core_trans; [apply clear_handlers_core|apply loadNextClass_core].
Qed.

Lemma registered_run (ops : list Op) (w : World) :
  registered_are_scoped w -> registered_are_scoped (run ops w).
Proof.
  revert w. induction ops as [|o ops IH]; intros w HI; [done|].
  simpl. apply IH. by apply registered_step.
Qed.

Lemma agrees_same_core (w w' : World) :
  registry_agrees w -> same_core w w' -> registry_agrees w'.
Proof.
  intros [HI HJ] Hc. split; [by eapply registered_same_core|].
  destruct Hc as (Hr & Hh & _). intros n N. rewrite Hr, Hh. apply HJ.
Qed.

Lemma agrees_register (w : World) (this : ref) (N : Namespace) :
  registry_agrees w ->
  heap w !! this = Some N ->
  namespaces w !! ns_uri N = None \/ namespaces w !! ns_uri N = Some this ->
  registry_agrees
    (update_ns this (set_isScoped true) (store_instance (ns_uri N) this w)).
Proof.
  intros [HI HJ] Hthis Hslot. split; [by apply registered_register|].
  intros n N'. rewrite update_ns_namespaces. simpl.
  destruct (decide (n = this)) as [->|Hn].
  - rewrite (update_ns_lookup_eq (store_instance _ _ w) this _ N Hthis).
    intros [= <-] _. apply lookup_insert_eq.
  - rewrite update_ns_lookup_ne by done. simpl. intros HN' Hs.
    pose proof (HJ _ _ HN' Hs) as Hreg.
    rewrite lookup_insert_ne; [done|].
    intros Heq. rewrite Heq in Hslot. destruct Hslot; congruence.
Qed.

Lemma agrees_descope (w : World) (this : ref) :
  registry_agrees w -> ~ held_by_other w this ->
  registry_agrees (snd (descope this w)).
Proof.
  intros [HI HJ] Hown. split; [by apply registered_descope|].
  unfold descope. destruct (heap w !! this) as [N|] eqn:Hthis; [|done].
  simpl. intros n N'. rewrite update_ns_namespaces. simpl.
  destruct (decide (n = this)) as [->|Hn].
  - rewrite (update_ns_lookup_eq (delete_key _ (console_log _ w)) this _ N Hthis).
    by intros [= <-].
  - rewrite update_ns_lookup_ne by done. simpl. intros HN' Hs.
    pose proof (HJ _ _ HN' Hs) as Hreg.
    rewrite lookup_delete_ne; [done|].
    intros Heq. apply Hown. exists N, n. by rewrite Heq.
Qed.

Lemma agrees_setSpecificClass (w : World) (this : ref) (name : option string) (c : Value) :
  registry_agrees w -> registry_agrees (snd (setSpecificClass this name c w)).
Proof.
  intros [HI HJ]. split; [by apply registered_setSpecificClass|].
  assert (Hstore : forall cl N, heap w !! this = Some N ->
            scoped_are_registered (update_ns this (set_classList cl) w)).
  { intros cl N Hthis n N'. rewrite update_ns_namespaces.
    destruct (decide (n = this)) as [->|Hne].
    - rewrite (update_ns_lookup_eq w this _ N Hthis). intros [= <-] Hs.
      exact (HJ _ _ Hthis Hs).
    - rewrite update_ns_lookup_ne by done. apply HJ. }
  unfold setSpecificClass. destruct (heap w !! this) as [N|] eqn:Hthis; [|done].
  destruct c as [| |f]; try done.
  case_decide; [done|].
  destruct (classList_at N (name_or name f)) as [old|]; [|by eapply Hstore].
  case_decide; [done|].
  destruct (ns_isScoped N && _); [done|by eapply Hstore].
Qed.

Lemma agrees_setNamespaceURI (w : World) (this : ref) (u : string) :
  registry_agrees w -> registry_agrees (snd (setNamespaceURI this u w)).
Proof.
  intros [HI HJ]. split; [by apply registered_setNamespaceURI|].
  unfold setNamespaceURI. destruct (heap w !! this) as [N|] eqn:Hthis; [|done].
  case_decide as Hu; [done|].
  destruct (ns_isScoped N) eqn:Hs.
  - by rewrite (namespaces_at_own w _ _ (HJ _ _ Hthis Hs)).
  - simpl. intros n N'. rewrite update_ns_namespaces.
    destruct (decide (n = this)) as [->|Hne].
    + rewrite (update_ns_lookup_eq w this _ N Hthis). intros [= <-]. simpl. congruence.
    + rewrite update_ns_lookup_ne by done. apply HJ.
Qed.

Lemma agrees_scope (w : World) (this : ref) (overwrite : bool) :
  registry_agrees w ->
  overwrite = true \/ ~ held_by_other w this ->
  registry_agrees (snd (scope this overwrite w)).
Proof.
  intros HA Hown. unfold scope. destruct (heap w !! this) as [N|] eqn:Hthis; [|done].
  destruct (ns_isScoped N) eqn:Hs; simpl.
  { eapply agrees_same_core; [done|apply scope_return_core]. }
  destruct (namespaces_at (ns_uri N) w) as [[old|]|] eqn:Hold.
  - apply namespaces_at_instance in Hold.
    destruct (decide (old = this)) as [->|Hne].
    { destruct HA as [HI _]. destruct (HI _ _ Hold) as (N' & ? & _ & ?). congruence. }
    rewrite decide_False by congruence.
    destruct Hown as [->|Hown]; [|destruct Hown; by exists N, old].
    destruct HA as [HI HJ]. destruct (HI _ _ Hold) as (O & HO & HOuri & HOs).
    set (w1 := console_log _ w).
    assert (HA1 : registry_agrees w1) by (by split).
    assert (Hown1 : ~ held_by_other w1 old).
    { intros (O' & m & HO' & Hm & Hne'). simpl in HO', Hm.
      rewrite HO in HO'. injection HO' as <-. rewrite HOuri, Hold in Hm. congruence. }
    pose proof (agrees_descope w1 old HA1 Hown1) as HA2.
    destruct (descope_fields w1 old O HO) as (Hret & Hreg & _ & Hothers).
    assert (Hgone : namespaces (snd (descope old w1)) !! ns_uri O = None).
    { rewrite Hreg. apply lookup_delete_eq. }
    assert (Hthis2 : heap (snd (descope old w1)) !! this = Some N).
    { by rewrite Hothers. }
    simpl. rewrite Hret.
    eapply agrees_same_core; [|apply scope_return_core].
    apply agrees_register; [done|done|]. left. by rewrite <- HOuri.
  - rewrite decide_False by done.
    assert (Hfree : namespaces w !! ns_uri N = None).
    { unfold namespaces_at in Hold. by destruct (namespaces w !! ns_uri N). }
    destruct overwrite; simpl.
    + by eapply agrees_same_core.
    + eapply agrees_same_core; [|apply scope_return_core].
      apply (agrees_register (console_log _ w)); [by destruct HA|done|by left].
  - eapply agrees_same_core; [|apply scope_return_core].
    apply agrees_register; [done|done|]. left. by eapply namespaces_at_None_own.
Qed.

Lemma agrees_GraphmlNamespace (src u : string) (attributes : option Attributes) (w : World) :
  registry_agrees w -> registry_agrees (snd (GraphmlNamespace src u attributes w)).
Proof.
  intros [HI HJ]. unfold GraphmlNamespace. fold (constructed src u attributes w).
  destruct (constructed_frame src u attributes w) as (Hr & Hh & _).
  assert (HA : registry_agrees (constructed src u attributes w)).
  { split; [by apply registered_constructed|].
    intros n N. rewrite Hr, Hh. intros HN Hs.
    destruct (decide (n < length (heap w))) as [Hlt|Hge].
    - rewrite lookup_app_l in HN by done. by apply HJ.
    - rewrite lookup_app_r in HN by lia.
      destruct (n - length (heap w)) as [|k]; simpl in HN; [|done].
      injection HN as <-. done. }
  simpl. destruct (negb (is_unscoped attributes)); [|done].
  destruct (GraphmlNamespace_get u _) eqn:Hget; [done|].
  apply agrees_scope; [done|]. right.
  intros (N & m & HN & Hm & _).
  rewrite Hh in HN. rewrite list_lookup_middle in HN by done.
  injection HN as <-. unfold GraphmlNamespace_get in Hget.
  apply namespaces_at_None_own in Hget. simpl in Hm. congruence.
Qed.

Lemma agrees_step (w : World) (o : Op) :
  registry_agrees w -> respects_ownership w o = true -> registry_agrees (step w o).
Proof.
  intros HA Hown.
  destruct o as [paths|src u a|this ov|this|this u|this name c|src a ns|i window|i]; simpl.
  - done.
  - by apply agrees_GraphmlNamespace.
  - apply agrees_scope; [done|]. destruct ov; [by left|right].
    apply occupied_by_other_false. simpl in Hown. by destruct (occupied_by_other w this).
  - apply agrees_descope; [done|].
    apply occupied_by_other_false. simpl in Hown. by destruct (occupied_by_other w this).
  - by apply agrees_setNamespaceURI.
  - by apply agrees_setSpecificClass.
  - eapply agrees_same_core; [done|apply load_core].
  - unfold onload. destruct (scripts w !! i) as [s|]; [|done].
    destruct (script_handlers s); [|done].
    eapply agrees_same_core; [|apply loadNextClass_core].
    destruct (script_namespace s) as [namespace|].
    + apply agrees_setSpecificClass.
      eapply agrees_same_core; [done|apply clear_handlers_core].
    + eapply agrees_same_core; [done|apply clear_handlers_core].
  - unfold onerror. destruct (scripts w !! i) as [s|]; [|done].
    destruct (script_handlers s); [|done].
    eapply agrees_same_core; [done|].
    eapply same_core_trans; [apply clear_handlers_core|apply loadNextClass_core].
Qed.

Lemma agrees_run (ops : list Op) (w : World) :
  registry_agrees w -> respects_ownership_all w ops = true -> registry_agrees (run ops w).
Proof.
  revert w. induction ops as [|o ops IH]; intros w HA Hall; [done|].
  simpl in Hall. apply andb_true_iff in Hall as [Ho Hall].
  simpl. apply IH; [by apply agrees_step|done].
Qed.

Lemma agrees_iff (w : World) :
  registry_agrees w -> scoped_iff_registered w /\ one_scoped_per_identifier w.
Proof.
  intros [HI HJ]. split.
  - intros n N HN. split; [by apply HJ|].
    intros Hreg. destruct (HI _ _ Hreg) as (N' & HN' & _ & Hs). congruence.
  - intros n m N M HN HM Hs Hs' Huri.
    pose proof (HJ _ _ HN Hs) as H1. pose proof (HJ _ _ HM Hs') as H2.
    rewrite Huri in H1. congruence.
Qed.




(** ** Strings *)

Lemma append_nil (t : string) : "" +:+ t = t.
Proof. reflexivity. Qed.

Lemma append_cons (a : ascii) (s t : string) : String a s +:+ t = String a (s +:+ t).
Proof. reflexivity. Qed.

Lemma lastIndexOf_from_absent (c : ascii) (s : string) (i last : Z) :
  occurs c s = false -> lastIndexOf_from c s i last = last.
Proof.
  revert i last. induction s as [|a s IH]; intros i last H; [done|].
  simpl in *. apply orb_false_iff in H as [Ha Hs]. rewrite Ha. by apply IH.
Qed.

Lemma lastIndexOf_from_last (c : ascii) (pre seg : string) (i last : Z) :
  occurs c seg = false ->
  lastIndexOf_from c (pre +:+ String c seg) i last
  = (i + Z.of_nat (String.length pre))%Z.
Proof.
  revert i last. induction pre as [|a pre IH]; intros i last H.
  - rewrite append_nil. simpl.
    rewrite Ascii.eqb_refl. rewrite lastIndexOf_from_absent by done. lia.
  - rewrite append_cons. simpl. rewrite IH by done. lia.
Qed.

Lemma occurs_split (c : ascii) (s : string) :
  occurs c s = true ->
  exists pre seg, s = pre +:+ String c seg /\ occurs c seg = false.
Proof.
  induction s as [|a s IH]; [done|]. simpl. intros H.
  destruct (occurs c s) eqn:Hs.
  - destruct (IH eq_refl) as (pre & seg & -> & Hseg).
    by exists (String a pre), seg.
  - rewrite orb_false_r in H. apply Ascii.eqb_eq in H as ->.
    by exists "", s.
Qed.

Lemma length_append (s t : string) :
  String.length (s +:+ t) = String.length s + String.length t.
Proof.
  induction s as [|a s IH]; [done|]. rewrite append_cons. simpl. by rewrite IH.
Qed.

Lemma append_assoc (s t u : string) : (s +:+ t) +:+ u = s +:+ (t +:+ u).
Proof.
  induction s as [|a s IH]; [done|]. rewrite !append_cons. by rewrite IH.
Qed.

Lemma occurs_append (c : ascii) (s t : string) :
  occurs c (s +:+ t) = occurs c s || occurs c t.
Proof.
  induction s as [|a s IH]; [done|]. rewrite append_cons. simpl.
  rewrite IH. by rewrite orb_assoc.
Qed.

Lemma substring_prefix (s t : string) :
  substring 0 (String.length s) (s +:+ t) = s.
Proof.
  induction s as [|a s IH]; [by destruct t|].
  rewrite append_cons. simpl. by rewrite IH.
Qed.

Lemma substring_skip (s t : string) (n : nat) :
  substring (String.length s) n (s +:+ t) = substring 0 n t.
Proof.
  induction s as [|a s IH]; [done|]. rewrite append_cons. simpl. exact IH.
Qed.

(** Inside the string, [slice] is [substring]. *)
Lemma slice_within (s : string) (a b : nat) :
  a <= b <= String.length s ->
  slice s (Z.of_nat a) (Z.of_nat b) = substring a (b - a) s.
Proof.
  intros H. unfold slice.
  destruct (Z.ltb_spec (Z.of_nat a) 0); [lia|].
  destruct (Z.ltb_spec (Z.of_nat b) 0); [lia|].
  f_equal; lia.
Qed.

(** The slice from the end of [pre] up to three characters before the
    end is what lies between them. *)
Lemma slice_middle (pre base ext : string) :
  String.length ext = 3 ->
  slice (pre +:+ base +:+ ext)
        (Z.of_nat (String.length pre))
        (Z.of_nat (String.length (pre +:+ base +:+ ext)) - 3) = base.
Proof.
  intros Hext.
  replace (Z.of_nat (String.length (pre +:+ base +:+ ext)) - 3)%Z
    with (Z.of_nat (String.length pre + String.length base))
    by (rewrite !length_append, Hext; lia).
  rewrite slice_within by (rewrite !length_append; lia).
  replace (String.length pre + String.length base - String.length pre)
    with (String.length base) by lia.
  rewrite substring_skip. apply substring_prefix.
Qed.

Lemma className_of_no_dir (base ext : string) :
  occurs slash (base +:+ ext) = false ->
  String.length ext = 3 ->
  className_of (base +:+ ext) = base.
Proof.
  intros Hno Hext. unfold className_of, lastIndexOf.
  rewrite lastIndexOf_from_absent by done.
  exact (slice_middle "" base ext Hext).
Qed.

Lemma className_of_dir (q base ext : string) :
  occurs slash (base +:+ ext) = false ->
  String.length ext = 3 ->
  className_of ((q +:+ "/") +:+ base +:+ ext) = base.
Proof.
  intros Hno Hext. unfold className_of, lastIndexOf.
  replace ((q +:+ "/") +:+ base +:+ ext) with (q +:+ String slash (base +:+ ext))
    by (by rewrite append_assoc).
  rewrite lastIndexOf_from_last by done.
  replace (q +:+ String slash (base +:+ ext)) with ((q +:+ "/") +:+ base +:+ ext)
    by (by rewrite append_assoc).
  replace (0 + Z.of_nat (String.length q) + 1)%Z
    with (Z.of_nat (String.length (q +:+ "/")))
    by (rewrite length_append; simpl; lia).
  by apply slice_middle.
Qed.

Lemma folder_of_ends_dir (src : string) : ends_dir (folder_of src).
Proof.
  unfold folder_of, lastIndexOf.
  destruct (occurs slash src) eqn:Hocc.
  - destruct (occurs_split _ _ Hocc) as (pre & seg & -> & Hseg).
    right. exists pre. rewrite lastIndexOf_from_last by done.
    replace (0 + Z.of_nat (String.length pre) + 1)%Z
      with (Z.of_nat (String.length (pre +:+ "/")))
      by (rewrite length_append; simpl; lia).
    replace (pre +:+ String slash seg) with ((pre +:+ "/") +:+ seg)
      by (by rewrite append_assoc).
    rewrite (slice_within _ 0) by (rewrite !length_append; lia).
    rewrite Nat.sub_0_r. apply substring_prefix.
  - left. rewrite lastIndexOf_from_absent by done.
    unfold slice. simpl. by destruct src.
Qed.

Lemma className_of_final_segment (folder dir base ext : string) :
  ends_dir folder -> ends_dir dir ->
  occurs slash (base +:+ ext) = false ->
  String.length ext = 3 ->
  className_of (folder +:+ dir +:+ base +:+ ext) = base.
Proof.
  intros [->|[q ->]] [->|[q' ->]] Hno Hext; rewrite ?append_nil.
  - by apply className_of_no_dir.
  - by apply className_of_dir.
  - by apply className_of_dir.
  - rewrite <- (append_assoc (q +:+ "/") (q' +:+ "/")).
    rewrite <- (append_assoc (q +:+ "/") q' "/").
    by apply className_of_dir.
Qed.

(** ** Draining a task *)

Lemma setSpecificClass_frame (this : ref) (name : option string) (c : Value) (w : World) :
  namespaces (snd (setSpecificClass this name c w)) = namespaces w
  /\ arrays (snd (setSpecificClass this name c w)) = arrays w
  /\ loaderList (snd (setSpecificClass this name c w)) = loaderList w
  /\ scripts (snd (setSpecificClass this name c w)) = scripts w.
Proof.
  unfold setSpecificClass. destruct (heap w !! this) as [N|] eqn:Hthis; [|done].
  destruct c as [| |f]; try done.
  pose proof (update_ns_loader w this
    (set_classList (<[name_or name f := f]> (ns_classList N)))) as (? & ? & ?).
  pose proof (update_ns_namespaces w this
    (set_classList (<[name_or name f := f]> (ns_classList N)))).
  case_decide; [done|].
  destruct (classList_at N (name_or name f)) as [old|]; [|done].
  case_decide; [done|].
  by destruct (ns_isScoped N && _).
Qed.

Lemma setSpecificClass_undefined_keys (this : ref) (name : option string) (c : Value)
    (w : World) :
  undefined_keys (snd (setSpecificClass this name c w)) = undefined_keys w.
Proof.
  unfold setSpecificClass. destruct (heap w !! this) as [N|] eqn:Hthis; [|done].
  destruct c as [| |f]; try done.
  pose proof (update_ns_undefined_keys w this
    (set_classList (<[name_or name f := f]> (ns_classList N)))).
  case_decide; [done|].
  destruct (classList_at N (name_or name f)) as [old|]; [|done].
  case_decide; [done|].
  by destruct (ns_isScoped N && _).
Qed.

Lemma setSpecificClass_core (this : ref) (name : option string) (c : Value) (w w' : World) :
  same_core w w' ->
  same_core (snd (setSpecificClass this name c w)) (snd (setSpecificClass this name c w')).
Proof.
  intros (Hr & Hh & Hk). unfold setSpecificClass, update_ns. rewrite Hh.
  destruct (heap w !! this) as [N|] eqn:Hthis; [|by repeat split].
  destruct c as [| |f]; try by repeat split.
  case_decide; [by repeat split|].
  rewrite (namespaces_at_same w w' (ns_uri N) Hr Hk).
  destruct (classList_at N (name_or name f)) as [old|]; simpl.
  - case_decide; [by repeat split|].
    destruct (ns_isScoped N && _); simpl; repeat split; simpl; congruence.
  - repeat split; simpl; congruence.
Qed.

Lemma attempt_frame (namespace : option ref) (attr : string) (o : Outcome) (w : World) :
  namespaces (attempt namespace attr o w) = namespaces w
  /\ arrays (attempt namespace attr o w) = arrays w
  /\ loaderList (attempt namespace attr o w) = loaderList w
  /\ scripts (attempt namespace attr o w) = scripts w.
Proof.
  unfold attempt. destruct o as [window|]; [|done].
  destruct namespace as [n|]; [|done]. apply setSpecificClass_frame.
Qed.

Lemma attempt_core (namespace : option ref) (attr : string) (o : Outcome) (w w' : World) :
  same_core w w' ->
  same_core (attempt namespace attr o w) (attempt namespace attr o w').
Proof.
  intros Hc. unfold attempt. destruct o as [window|]; [|done].
  destruct namespace as [n|]; [|done]. by apply setSpecificClass_core.
Qed.

(** One call of [loadNextClass] when the front task still has a path. *)
Lemma loadNextClass_front (w : World) (e : Entry) (rest : list Entry)
    (X : string) (xs : list string) :
  loaderList w = e :: rest ->
  arrays w !! entry_classList e = Some (X :: xs) ->
  same_core w (loadNextClass w)
  /\ arrays (loadNextClass w) = <[entry_classList e := xs]> (arrays w)
  /\ scripts (loadNextClass w)
     = scripts w ++ [fetching (entry_folder e) X (entry_namespace e)]
  /\ loaderList (loadNextClass w) = (if decide (xs = []) then rest else e :: rest).
Proof.
  intros Hq Ha. split; [apply loadNextClass_core|].
  unfold loadNextClass, shift. rewrite Hq, Ha. simpl.
  unfold array_length. simpl.
  rewrite list_lookup_insert_eq by (by eapply lookup_lt_Some).
  destruct xs as [|x xs]; simpl; done.
Qed.

(** A handler firing on a script whose handlers are installed. *)
Lemma complete_live (w : World) (i : nat) (s : Script) (o : Outcome) :
  scripts w !! i = Some s ->
  script_handlers s = true ->
  complete i o w
  = loadNextClass (attempt (script_namespace s) (script_src s) o (clear_handlers i w)).
Proof.
  intros Hs Hl. unfold complete, attempt, onload, onerror. rewrite Hs, Hl.
  destruct o as [window|]; [|done]. by destruct (script_namespace s).
Qed.

Lemma clear_handlers_fields (w : World) (i : nat) (s : Script) :
  scripts w !! i = Some s ->
  same_core w (clear_handlers i w)
  /\ arrays (clear_handlers i w) = arrays w
  /\ loaderList (clear_handlers i w) = loaderList w
  /\ scripts (clear_handlers i w) = <[i := without_handlers s]> (scripts w).
Proof. intros Hs. unfold clear_handlers. by rewrite Hs. Qed.

(** A completion while the front task still has a path: the finished
    script loses its handlers, the registration step runs, and the next
    path of the front task is dispatched. *)
Lemma complete_dispatches (w : World) (i : nat) (s : Script) (o : Outcome)
    (e : Entry) (rest : list Entry) (X : string) (xs : list string) :
  scripts w !! i = Some s ->
  script_handlers s = true ->
  loaderList w = e :: rest ->
  arrays w !! entry_classList e = Some (X :: xs) ->
  same_core (attempt (script_namespace s) (script_src s) o w) (complete i o w)
  /\ arrays (complete i o w) = <[entry_classList e := xs]> (arrays w)
  /\ scripts (complete i o w)
     = <[i := without_handlers s]> (scripts w)
       ++ [fetching (entry_folder e) X (entry_namespace e)]
  /\ loaderList (complete i o w) = (if decide (xs = []) then rest else e :: rest).
Proof.
  intros Hs Hl Hq Ha. rewrite (complete_live w i s o Hs Hl).
  destruct (clear_handlers_fields w i s Hs) as (Hc & Hca & Hcq & Hcs).
  set (m := clear_handlers i w) in *.
  destruct (attempt_frame (script_namespace s) (script_src s) o m) as (_ & Haa & Haq & Has).
  pose proof (attempt_core (script_namespace s) (script_src s) o w m Hc) as Hac.
  set (m' := attempt _ _ o m) in *.
  destruct (loadNextClass_front m' e rest X xs) as (Hlc & Hla & Hls & Hlq).
  { by rewrite Haq, Hcq. }
  { by rewrite Haa, Hca. }
  split; [by eapply same_core_trans|].
  rewrite Hla, Hls, Hlq, Haa, Has, Hca, Hcs. done.
Qed.

(** A completion when the queue is empty: nothing is dispatched. *)
Lemma complete_idle (w : World) (i : nat) (s : Script) (o : Outcome) :
  scripts w !! i = Some s ->
  script_handlers s = true ->
  loaderList w = [] ->
  same_core (attempt (script_namespace s) (script_src s) o w) (complete i o w)
  /\ arrays (complete i o w) = arrays w
  /\ scripts (complete i o w) = <[i := without_handlers s]> (scripts w)
  /\ loaderList (complete i o w) = [].
Proof.
  intros Hs Hl Hq. rewrite (complete_live w i s o Hs Hl).
  destruct (clear_handlers_fields w i s Hs) as (Hc & Hca & Hcq & Hcs).
  set (m := clear_handlers i w) in *.
  destruct (attempt_frame (script_namespace s) (script_src s) o m) as (_ & Haa & Haq & Has).
  pose proof (attempt_core (script_namespace s) (script_src s) o w m Hc) as Hac.
  set (m' := attempt _ _ o m) in *.
  assert (Hq' : loaderList m' = []) by (by rewrite Haq, Hcq).
  unfold loadNextClass. rewrite Hq'.
  split; [done|]. by rewrite Haa, Has, Hca, Hcs.
Qed.

Lemma lookup_after {A} (l pre : list A) (x : A) :
  (l ++ pre ++ [x]) !! (length pre + length l) = Some x.
Proof.
  rewrite app_assoc, Nat.add_comm, <- length_app. by apply list_lookup_middle.
Qed.

Lemma finish_after (l pre : list Script) (folder src : string) (namespace : option ref)
    (rest : list Script) :
  <[length pre + length l := without_handlers (fetching folder src namespace)]>
    (l ++ pre ++ [fetching folder src namespace]) ++ rest
  = l ++ pre ++ fetched folder src namespace :: rest.
Proof.
  rewrite !app_assoc, Nat.add_comm, <- length_app.
  rewrite insert_app_r_alt by lia. rewrite Nat.sub_diag. simpl.
  by rewrite <- !app_assoc.
Qed.

Lemma complete_core (w : World) (i : nat) (s : Script) (o : Outcome) :
  scripts w !! i = Some s ->
  script_handlers s = true ->
  same_core (attempt (script_namespace s) (script_src s) o w) (complete i o w).
Proof.
  intros Hs Hl. rewrite (complete_live w i s o Hs Hl).
  eapply same_core_trans; [|apply loadNextClass_core].
  apply attempt_core. by destruct (clear_handlers_fields w i s Hs).
Qed.

Lemma loadNextClass_scripts (w : World) :
  exists tail, scripts (loadNextClass w) = scripts w ++ tail.
Proof.
  unfold loadNextClass. destruct (loaderList w) as [|e rest].
  - exists []. by rewrite app_nil_r.
  - destruct (shift_frame (entry_classList e) w) as (_ & _ & _ & _ & Hs).
    destruct (shift (entry_classList e) w) as [src w1]. simpl in Hs.
    eexists. case_decide; simpl; by rewrite Hs.
Qed.

(** The script whose handler fired has no handlers afterwards. *)
Lemma complete_marks (w : World) (i : nat) (s : Script) (o : Outcome) :
  scripts w !! i = Some s ->
  script_handlers s = true ->
  scripts (complete i o w) !! i = Some (without_handlers s).
Proof.
  intros Hs Hl. rewrite (complete_live w i s o Hs Hl).
  destruct (clear_handlers_fields w i s Hs) as (_ & _ & _ & Hcs).
  destruct (attempt_frame (script_namespace s) (script_src s) o (clear_handlers i w))
    as (_ & _ & _ & Has).
  destruct (loadNextClass_scripts
              (attempt (script_namespace s) (script_src s) o (clear_handlers i w)))
    as [tail ->].
  rewrite Has, Hcs.
  assert (i < length (scripts w)) by (by eapply lookup_lt_Some).
  rewrite lookup_app_l by (by rewrite length_insert).
  by apply list_lookup_insert_eq.
Qed.

(** On an empty queue [load] is a call of [loadNextClass] with the new
    task at the front. *)
Lemma load_idle_loadNextClass (w : World) (src : string) (a : aref)
    (namespace : option ref) :
  loaderList w = [] ->
  load src a namespace w
  = loadNextClass
      (set_loaderList [{| entry_namespace := namespace; entry_classList := a;
                          entry_folder := folder_of src |}] w).
Proof. intros Hq. unfold load. by rewrite Hq. Qed.

(** C9.  Let [loadNextClass] be called when the task at the front of the
    queue has the paths [A; B; C] pending (for a task enqueued on an empty
    queue this is the call made by [load]).  Let the fetch of [A] end in
    any way, the fetch of [B] fail, and the fetch of [C] end in any way.
    Then [A] is dispatched by that call, [B] by the completion of [A], and
    [C] by the failure handler of [B], after which the task has left the
    queue; the failure of [B] leaves the registry and every instance as
    they were; the instances after [A] and after [C] are exactly those
    produced by their registration steps; and the handler of [C] has run
    to its end.  Every function involved returns normally. *)
Theorem fetch_failure_tolerated
    (w : World) (e : Entry) (rest : list Entry) (A B C : string) (oA oC : Outcome) :
  loaderList w = e :: rest ->
  arrays w !! entry_classList e = Some [A; B; C] ->
  let F := entry_folder e in
  let namespace := entry_namespace e in
  let k := length (scripts w) in
  let w1 := loadNextClass w in
  let w2 := complete k oA w1 in
  let w3 := onerror (S k) w2 in
  let w4 := complete (S (S k)) oC w3 in
  scripts w1 = scripts w ++ [fetching F A namespace]
  /\ scripts w2 = scripts w ++ [fetched F A namespace; fetching F B namespace]
  /\ scripts w3 = scripts w ++ [fetched F A namespace; fetched F B namespace;
                               fetching F C namespace]
  /\ scripts w4 !! S (S k) = Some (fetched F C namespace)
  /\ same_core (attempt namespace (F +:+ A) oA w) w2
  /\ same_core w2 w3
  /\ same_core (attempt namespace (F +:+ C) oC w3) w4
  /\ loaderList w3 = rest.
Proof.
  intros Hq Ha F namespace k w1 w2 w3 w4.
  set (a := entry_classList e) in *.
  assert (Hlt : a < length (arrays w)) by (by eapply lookup_lt_Some).
  (* the first call: A is dispatched *)
  destruct (loadNextClass_front w e rest A [B; C] Hq Ha) as (Hc1 & Ha1 & Hs1 & Hq1).
  fold w1 F namespace a in Hc1, Ha1, Hs1, Hq1. simpl in Hq1.
  (* A completes: B is dispatched *)
  destruct (complete_dispatches w1 k (fetching F A namespace) oA e rest B [C])
    as (Hc2 & Ha2 & Hs2 & Hq2).
  { rewrite Hs1. exact (lookup_after (scripts w) [] _). }
  { done. }
  { done. }
  { fold a. rewrite Ha1. by apply list_lookup_insert_eq. }
  fold w2 F namespace a in Hc2, Ha2, Hs2, Hq2. simpl in Hc2, Hq2.
  assert (Hs2' : scripts w2
                 = scripts w ++ [fetched F A namespace; fetching F B namespace]).
  { rewrite Hs2, Hs1. exact (finish_after (scripts w) [] F A namespace [_]). }
  (* B fails: C is dispatched and the task leaves the queue *)
  destruct (complete_dispatches w2 (S k) (fetching F B namespace) Failed e rest C [])
    as (Hc3 & Ha3 & Hs3 & Hq3).
  { rewrite Hs2'. exact (lookup_after (scripts w) [_] _). }
  { done. }
  { done. }
  { fold a. rewrite Ha2, Ha1. apply list_lookup_insert_eq. by rewrite length_insert. }
  change (complete (S k) Failed w2) with w3 in Hc3, Ha3, Hs3, Hq3.
  fold F namespace in Hs3. simpl in Hc3, Hq3.
  assert (Hs3' : scripts w3
                 = scripts w ++ [fetched F A namespace; fetched F B namespace;
                                 fetching F C namespace]).
  { rewrite Hs3, Hs2'. exact (finish_after (scripts w) [_] F B namespace [_]). }
  (* C completes *)
  assert (HsC : scripts w3 !! S (S k) = Some (fetching F C namespace)).
  { rewrite Hs3'. exact (lookup_after (scripts w) [_; _] _). }
  pose proof (complete_core w3 (S (S k)) _ oC HsC eq_refl) as Hc4.
  pose proof (complete_marks w3 (S (S k)) _ oC HsC eq_refl) as Hs4.
  fold w4 in Hc4, Hs4. simpl in Hc4.
  split; [exact Hs1|]. split; [exact Hs2'|]. split; [exact Hs3'|].
  split; [exact Hs4|]. split.
  { eapply same_core_trans; [|exact Hc2]. by apply attempt_core. }
  split; [exact Hc3|]. split; [exact Hc4|exact Hq3].
Qed.

Lemma fetch_failure_tolerated_witness :
  let e := {| entry_namespace := Some 0; entry_classList := 0;
              entry_folder := folder_of "lib/demo.js" |} in
  let w1 := load "lib/demo.js" 0 (Some 0) demo_abc in
  let w2 := complete 0 (Loaded window_abc) w1 in
  let w3 := onerror 1 w2 in
  let w4 := complete 2 (Loaded window_abc) w3 in
  w1 = loadNextClass (set_loaderList [e] demo_abc)
  /\ scripts w3 = [fetched "lib/" "a.js" (Some 0); fetched "lib/" "b.js" (Some 0);
                   fetching "lib/" "c.js" (Some 0)]
  /\ scripts w4 !! 2 = Some (fetched "lib/" "c.js" (Some 0))
  /\ heap w3 = heap w2
  /\ loaderList w3 = []
  /\ ns_classList <$> heap w4 !! 0
     = Some {[ "a" := class_a; "c" := class_c ]}.
Proof.
  intros e w1 w2 w3 w4.
  pose proof (fetch_failure_tolerated (set_loaderList [e] demo_abc) e []
                "a.js" "b.js" "c.js" (Loaded window_abc) (Loaded window_abc)
                eq_refl eq_refl) as (_ & _ & H3 & H4 & _ & H6 & _ & H8).
  split; [reflexivity|]. split; [exact H3|]. split; [exact H4|].
  split; [exact (proj1 (proj2 H6))|]. split; [exact H8|].
  vm_compute. reflexivity.
Defined.

(** ** The name a fetched class is registered under *)

(** C4, as stated, fails: for ["a.impl"] the handler cuts three
    characters and looks up ["a.i"]; with both fetches successful and the
    globals [a] and [b] defined, nothing is registered in the namespace. *)
Lemma impl_extension_not_stripped :
  className_of "a.impl" = "a.i"
  /\ className_of "b.impl" = "b.i"
  /\ scripts demo_impl = [fetched "" "a.impl" (Some 0); fetched "" "b.impl" (Some 0)]
  /\ GraphmlNamespace_get "ns://demo" demo_impl = Some (SlotInstance 0)
  /\ ns_classList <$> heap demo_impl !! 0 = Some ∅.
Proof. vm_compute. repeat split. Qed.

(** C4, amended.  Let a script be in flight for a task with target
    namespace [n], its [src] attribute being the task's folder followed by
    a path whose final segment is [base] followed by an extension of
    exactly three characters (as [".js"]).  Then the key looked up among
    the globals is [base]; and when the global [base] is a function [g]
    with a non-empty [name] under which the [classList] of the namespace
    reads as [undefined] (it holds nothing under that name, and the name
    is not that of a member of [Object.prototype]), the [onload] handler
    registers [g] under [g]'s own [name] (which is [base] for a script
    that declares [function base]), leaving the identifier and the flag
    of the namespace as they were. *)
Theorem registered_under_declared_name
    (w : World) (src dir base ext : string) (i : nat) (n : ref) (N : Namespace)
    (window : gmap string Value) (g : JSFunction) :
  ends_dir dir ->
  occurs slash (base +:+ ext) = false ->
  String.length ext = 3 ->
  scripts w !! i = Some (fetching (folder_of src) (dir +:+ base +:+ ext) (Some n)) ->
  heap w !! n = Some N ->
  window !! base = Some (VFunction g) ->
  fn_name g <> "" ->
  classList_at N (fn_name g) = None ->
  className_of (folder_of src +:+ dir +:+ base +:+ ext) = base
  /\ heap (onload i window w) !! n
     = Some (set_classList (<[fn_name g := g]> (ns_classList N)) N).
Proof.
  intros Hdir Hno Hext Hs HN Hwin Hname Hfresh.
  assert (Hcn : className_of (folder_of src +:+ dir +:+ base +:+ ext) = base).
  { apply className_of_final_segment; [apply folder_of_ends_dir|done..]. }
  split; [exact Hcn|].
  destruct (complete_core w i _ (Loaded window) Hs eq_refl) as (_ & Hh & _).
  change (complete i (Loaded window) w) with (onload i window w) in Hh.
  rewrite Hh. simpl. rewrite Hcn, Hwin. simpl.
  unfold setSpecificClass. rewrite HN. simpl.
  rewrite decide_False by done. rewrite Hfresh. simpl.
  by apply update_ns_lookup_eq.
Qed.

Lemma registered_under_declared_name_witness :
  className_of "lib/a.js" = "a"
  /\ heap (onload 0 window_abc demo_js) !! 0
     = Some {| ns_uri := "ns://demo"; ns_classList := {[ "a" := class_a ]};
               ns_isScoped := true |}
  /\ scripts (onload 1 window_abc (onload 0 window_abc demo_js))
     = [fetched "lib/" "a.js" (Some 0); fetched "lib/" "b.js" (Some 0)]
  /\ ns_classList <$> heap (onload 1 window_abc (onload 0 window_abc demo_js)) !! 0
     = Some {[ "a" := class_a; "b" := class_b ]}.
Proof.
  pose proof (registered_under_declared_name demo_js "lib/demo.js" "" "a" ".js" 0 0
    {| ns_uri := "ns://demo"; ns_classList := ∅; ns_isScoped := true |}
    window_abc class_a (or_introl eq_refl) eq_refl eq_refl eq_refl eq_refl eq_refl
    ltac:(discriminate) eq_refl) as [H1 H2].
  split; [exact H1|]. split; [exact H2|].
  vm_compute. split; reflexivity.
Defined.

(** ** One fetch at a time *)

(** While a task is in the queue, [load] only appends: the new task waits
    and nothing is dispatched. *)
Lemma load_busy (w : World) (src : string) (a : aref) (namespace : option ref) :
  loaderList w <> [] ->
  scripts (load src a namespace w) = scripts w
  /\ loaderList (load src a namespace w)
     = loaderList w ++ [{| entry_namespace := namespace; entry_classList := a;
                           entry_folder := folder_of src |}].
Proof.
  intros Hq. unfold load. destruct (loaderList w) as [|e rest]; [done|].
  by rewrite decide_False.
Qed.

(** C5.  A namespace is constructed with the one path ["a.js"]:
    [loadNextClass] dispatches it and, the array being empty now, removes
    the task, so the queue is empty while the fetch is in flight.  A
    second namespace constructed at that moment finds the queue empty and
    has ["b.js"] dispatched at once: two fetches are in flight. *)
Theorem second_fetch_while_first_in_flight :
  let w1 := run [OpArray ["a.js"]; OpArray ["b.js"];
                 OpNew "lib/one.js" "ns://one" (with_classList 0)] empty_world in
  let w2 := step w1 (OpNew "lib/two.js" "ns://two" (with_classList 1)) in
  scripts w1 = [fetching "lib/" "a.js" (Some 0)]
  /\ loaderList w1 = []
  /\ in_flight w1 = 1
  /\ scripts w2 = [fetching "lib/" "a.js" (Some 0); fetching "lib/" "b.js" (Some 1)]
  /\ in_flight w2 = 2.
Proof. vm_compute. repeat split. Qed.

(** C6.  The first task has the paths ["a.js"; "b.js"; "c.js"].  When the
    fetch of ["b.js"] completes, ["c.js"] is dispatched and the task
    leaves the queue.  A second task enqueued for another namespace while
    ["c.js"] is still being fetched has ["d.js"] dispatched at once,
    before the handler of ["c.js"] has run. *)
Theorem second_task_dispatched_before_first_completes :
  let w1 := run [OpArray ["a.js"; "b.js"; "c.js"]; OpArray ["d.js"];
                 OpNew "lib/one.js" "ns://one" (with_classList 0);
                 OpOnload 0 window_abc; OpOnload 1 window_abc] empty_world in
  let w2 := step w1 (OpNew "lib/two.js" "ns://two" (with_classList 1)) in
  scripts w1 = [fetched "lib/" "a.js" (Some 0); fetched "lib/" "b.js" (Some 0);
                fetching "lib/" "c.js" (Some 0)]
  /\ loaderList w1 = []
  /\ scripts w2 = [fetched "lib/" "a.js" (Some 0); fetched "lib/" "b.js" (Some 0);
                   fetching "lib/" "c.js" (Some 0); fetching "lib/" "d.js" (Some 1)]
  /\ ns_classList <$> heap w2 !! 0 = Some {[ "a" := class_a; "b" := class_b ]}.
Proof. vm_compute. repeat split. Qed.

(** * Further properties of the registry *)

Lemma scope_return_scoped (w : World) (this : ref) (N : Namespace) :
  heap w !! this = Some N -> ns_isScoped N = true ->
  fst (scope_return this w) = Returned true /\ same_core w (snd (scope_return this w)).
Proof. intros H Hs. unfold scope_return. by rewrite H, Hs. Qed.

(** The three fields that [scope] leaves behind on an instance that was
    not scoped, unless it throws: the registry holds it under its
    identifier, its flag is set, and the call returned [true]. *)
Lemma scope_unscoped_fields (w : World) (n : ref) (N : Namespace) (overwrite : bool) :
  heap w !! n = Some N ->
  ns_isScoped N = false ->
  overwrite = false \/ namespaces_at (ns_uri N) w <> Some SlotInherited ->
  fst (scope n overwrite w) = Returned true
  /\ heap (snd (scope n overwrite w)) !! n = Some (set_isScoped true N)
  /\ namespaces (snd (scope n overwrite w)) !! ns_uri N = Some n.
Proof.
  intros Hn Hs Hok. unfold scope. rewrite Hn, Hs. simpl.
  assert (Hreg : forall w0, heap w0 !! n = Some N ->
            let w' := update_ns n (set_isScoped true) (store_instance (ns_uri N) n w0) in
            fst (scope_return n w') = Returned true
            /\ heap (snd (scope_return n w')) !! n = Some (set_isScoped true N)
            /\ namespaces (snd (scope_return n w')) !! ns_uri N = Some n).
  { intros w0 H0 w'.
    assert (H' : heap w' !! n = Some (set_isScoped true N)).
    { exact (update_ns_lookup_eq (store_instance _ _ w0) n _ N H0). }
    destruct (scope_return_scoped w' n _ H' eq_refl) as (Hret & Hr & Hh & _).
    split; [exact Hret|]. rewrite Hh, Hr. split; [exact H'|].
    unfold w'. rewrite update_ns_namespaces. simpl. apply lookup_insert_eq. }
  destruct (namespaces_at (ns_uri N) w) as [old|] eqn:Hold; [|by apply Hreg].
  case_decide as Hne.
  - simpl. split; [done|]. rewrite update_ns_namespaces. simpl.
    split; [exact (update_ns_lookup_eq (console_log _ w) n _ N Hn)|].
    subst old. by apply namespaces_at_instance.
  - destruct overwrite.
    + destruct old as [old|]; [|by destruct Hok]. simpl.
      rewrite descope_true. apply Hreg.
      rewrite descope_heap_ne by congruence. exact Hn.
    + by apply (Hreg (console_log _ w)).
Qed.

(** [scope] with [overwrite] on an unscoped instance whose identifier
    reads as a member of [Object.prototype]: the call of [descope] on
    that member throws. *)
Lemma scope_throws (w : World) (n : ref) (N : Namespace) :
  heap w !! n = Some N ->
  ns_isScoped N = false ->
  namespaces_at (ns_uri N) w = Some SlotInherited ->
  scope n true w
  = (TypeError,
     console_log ("Namespace: existing namespace already found scoped under the schema "
                  +:+ ns_uri N) w).
Proof.
  intros Hn Hs Hi. unfold scope. rewrite Hn, Hs. simpl. rewrite Hi.
  by rewrite decide_False.
Qed.

(** X1.  [scope] never returns [false].  For every instance, in every
    state and for either value of [overwrite], the call either throws a
    [TypeError] or returns [true].  It throws exactly when [overwrite] is
    set, the instance is not scoped and [document.namespaces] reads as a
    member of [Object.prototype] under its identifier; the registry and
    the instances are then as they were.  When it returns, the instance's
    [isScoped] flag, as [getScope] reads it afterwards, is [true]. *)
Theorem scope_returns_flag (w : World) (n : ref) (N : Namespace) (overwrite : bool) :
  heap w !! n = Some N ->
  let r := scope n overwrite w in
  (fst r = TypeError
   <-> overwrite = true /\ ns_isScoped N = false
       /\ GraphmlNamespace_get (ns_uri N) w = Some SlotInherited)
  /\ (fst r = TypeError -> same_core w (snd r))
  /\ (fst r <> TypeError -> fst r = Returned true /\ getScope n (snd r) = true).
Proof.
  intros Hn r. subst r. unfold GraphmlNamespace_get.
  destruct (ns_isScoped N) eqn:Hs.
  { unfold scope. rewrite Hn, Hs. simpl.
    destruct (scope_return_scoped w n N Hn Hs) as (Hret & _ & Hh & _).
    rewrite Hret. split; [split; [done|by intros (_ & ? & _)]|].
    split; [done|]. intros _. split; [done|]. unfold getScope. by rewrite Hh, Hn. }
  destruct (decide (overwrite = true /\ namespaces_at (ns_uri N) w = Some SlotInherited))
    as [[-> Hi]|Hno].
  { rewrite (scope_throws w n N Hn Hs Hi). simpl.
    split; [by split|]. split; [done|]. done. }
  destruct (scope_unscoped_fields w n N overwrite Hn Hs) as (Hret & Hh & _).
  { destruct overwrite; [right|by left]. intros Hi. by apply Hno. }
  rewrite Hret. split.
  { split; [done|]. intros (-> & _ & Hi). by destruct Hno. }
  split; [done|]. intros _. split; [done|]. unfold getScope. by rewrite Hh.
Qed.

Lemma scope_returns_flag_witness :
  (fst (scope 0 true prototype_named) = TypeError
   <-> true = true /\ false = false
       /\ GraphmlNamespace_get "constructor" prototype_named = Some SlotInherited)
  /\ fst (scope 0 true prototype_named) = TypeError
  /\ fst (scope 1 false two_instances) = Returned true
  /\ getScope 1 (snd (scope 1 false two_instances)) = true.
Proof.
  pose proof (scope_returns_flag prototype_named 0
    {| ns_uri := "constructor"; ns_classList := ∅; ns_isScoped := false |} true eq_refl)
    as (H1 & _ & _).
  pose proof (scope_returns_flag two_instances 1
    {| ns_uri := "u"; ns_classList := ∅; ns_isScoped := false |} false eq_refl)
    as (_ & _ & H3).
  split; [exact H1|]. split; [reflexivity|].
  exact (H3 ltac:(discriminate)).
Defined.



(** X3.  A second [scope] changes nothing: after [scope] has run once on an
    instance and returned, running it again (with any [overwrite]) returns
    [true] and leaves the registry and every instance as the first call
    left them. *)
Theorem scope_twice (w : World) (n : ref) (N : Namespace) (ov ov' : bool) :
  heap w !! n = Some N ->
  fst (scope n ov w) <> TypeError ->
  let w1 := snd (scope n ov w) in
  fst (scope n ov' w1) = Returned true /\ same_core w1 (snd (scope n ov' w1)).
Proof.
  intros Hn Hret w1.
  assert (exists N1, heap w1 !! n = Some N1 /\ ns_isScoped N1 = true) as (N1 & H1 & Hs1).
  { destruct (ns_isScoped N) eqn:Hs.
    - exists N. split; [|done]. unfold w1, scope. rewrite Hn, Hs. simpl.
      destruct (scope_return_scoped w n N Hn Hs) as (_ & _ & Hh & _). by rewrite Hh.
    - destruct (scope_unscoped_fields w n N ov Hn Hs) as (_ & Hh & _);
        [|by exists (set_isScoped true N)].
      destruct ov; [right|by left]. intros Hi.
      apply Hret. by rewrite (scope_throws w n N Hn Hs Hi). }
  unfold scope. rewrite H1, Hs1. simpl. by apply (scope_return_scoped w1 n N1).
Qed.

Lemma scope_twice_witness :
  let w1 := snd (scope 1 true two_instances) in
  fst (scope 1 false w1) = Returned true /\ same_core w1 (snd (scope 1 false w1)).
Proof.
  exact (scope_twice two_instances 1
           {| ns_uri := "u"; ns_classList := ∅; ns_isScoped := false |} true false eq_refl
           ltac:(discriminate)).
Defined.

(** X4.  [scope] with [overwrite] on an unscoped instance whose slot is
    held by another instance with the same identifier: the occupant's
    flag is cleared, the caller's flag is set, the registry holds the
    caller, and every other instance and registry key is untouched. *)
Theorem scope_overwrite_evicts (w : World) (n m : ref) (N M : Namespace) :
  heap w !! n = Some N ->
  ns_isScoped N = false ->
  namespaces w !! ns_uri N = Some m ->
  m <> n ->
  heap w !! m = Some M ->
  ns_uri M = ns_uri N ->
  let w' := snd (scope n true w) in
  heap w' !! m = Some (set_isScoped false M)
  /\ heap w' !! n = Some (set_isScoped true N)
  /\ GraphmlNamespace_get (ns_uri N) w' = Some (SlotInstance n)
  /\ (forall k, k <> n -> k <> m -> heap w' !! k = heap w !! k)
  /\ (forall U, U <> ns_uri N -> namespaces w' !! U = namespaces w !! U).
Proof.
  intros Hn Hs Hm Hne HM Huri w'. unfold w', scope. rewrite Hn, Hs. simpl.
  rewrite (namespaces_at_own w _ m Hm).
  rewrite decide_False by congruence. simpl.
  set (w1 := console_log _ w).
  destruct (descope_fields w1 m M HM) as (Hret & Hreg & Hself & Hothers).
  rewrite Hret.
  set (w2 := snd (descope m w1)) in *.
  set (w3 := update_ns n _ _).
  assert (Hn2 : heap w2 !! n = Some N) by (by rewrite Hothers).
  assert (Hn3 : heap w3 !! n = Some (set_isScoped true N)).
  { exact (update_ns_lookup_eq (store_instance _ _ w2) n _ N Hn2). }
  destruct (scope_return_scoped w3 n _ Hn3 eq_refl) as (_ & Hr & Hh & _).
  rewrite Hh.
  assert (Hr3 : namespaces w3 = <[ns_uri N := n]> (namespaces w2)).
  { unfold w3. by rewrite update_ns_namespaces. }
  split; [unfold w3; rewrite update_ns_lookup_ne by done; exact Hself|].
  split; [exact Hn3|]. split.
  { apply namespaces_at_own. rewrite Hr, Hr3. apply lookup_insert_eq. }
  split.
  - intros k Hk Hkm. unfold w3. rewrite update_ns_lookup_ne by done. simpl.
    by apply Hothers.
  - intros U HU. rewrite Hr, Hr3. rewrite lookup_insert_ne by done. rewrite Hreg, Huri.
    by apply lookup_delete_ne.
Qed.

Lemma scope_overwrite_evicts_witness :
  let w' := snd (scope 1 true two_instances) in
  heap w' !! 0 = Some {| ns_uri := "u"; ns_classList := ∅; ns_isScoped := false |}
  /\ heap w' !! 1 = Some {| ns_uri := "u"; ns_classList := ∅; ns_isScoped := true |}
  /\ GraphmlNamespace_get "u" w' = Some (SlotInstance 1).
Proof.
  pose proof (scope_overwrite_evicts two_instances 1 0
    {| ns_uri := "u"; ns_classList := ∅; ns_isScoped := false |}
    {| ns_uri := "u"; ns_classList := ∅; ns_isScoped := true |}
    eq_refl eq_refl eq_refl ltac:(lia) eq_refl eq_refl) as (H1 & H2 & H3 & _).
  exact (conj H1 (conj H2 H3)).
Defined.

(** X5.  Renaming an unscoped instance to another identifier always
    succeeds: it returns [true], [getNamespaceURI] then gives the new
    identifier, the classes and the flag of the instance are kept, and
    the registry and the other instances are untouched, even when the new
    identifier is occupied. *)
Theorem rename_unscoped (w : World) (n : ref) (N : Namespace) (u : string) :
  heap w !! n = Some N ->
  ns_isScoped N = false ->
  let r := setNamespaceURI n u w in
  fst r = true
  /\ getNamespaceURI n (snd r) = Some u
  /\ getClasses n (snd r) = Some (ns_classList N)
  /\ getScope n (snd r) = false
  /\ namespaces (snd r) = namespaces w
  /\ (forall k, k <> n -> heap (snd r) !! k = heap w !! k).
Proof.
  intros Hn Hs r. unfold r, setNamespaceURI. rewrite Hn.
  unfold getNamespaceURI, getClasses, getScope.
  case_decide as Hu.
  - simpl. rewrite Hn. simpl. by rewrite Hu, Hs.
  - rewrite Hs. simpl. rewrite (update_ns_lookup_eq w n _ N Hn). simpl.
    rewrite update_ns_namespaces. rewrite Hs.
    repeat split; try done. intros k Hk. by apply update_ns_lookup_ne.
Qed.

Lemma rename_unscoped_witness :
  let r := setNamespaceURI 1 "v" two_instances in
  fst r = true
  /\ getNamespaceURI 1 (snd r) = Some "v"
  /\ namespaces (snd r) = namespaces two_instances.
Proof.
  pose proof (rename_unscoped two_instances 1
    {| ns_uri := "u"; ns_classList := ∅; ns_isScoped := false |} "v" eq_refl eq_refl)
    as (H1 & H2 & _ & _ & H5 & _).
  exact (conj H1 (conj H2 H5)).
Defined.



(** X7.  The constructor never disturbs what exists: whatever the
    identifier and the attributes, the new instance is a fresh reference,
    every instance that existed is unchanged, and every registry entry
    that existed is still there; with [unscoped] set the registry is not
    touched at all and the new instance has its flag cleared. *)
Theorem constructor_preserves (w : World) (src u : string) (attributes : option Attributes) :
  let c := GraphmlNamespace src u attributes w in
  fst c = length (heap w)
  /\ getNamespaceURI (fst c) (snd c) = Some u
  /\ getClasses (fst c) (snd c) = Some ∅
  /\ (forall k N, heap w !! k = Some N -> heap (snd c) !! k = Some N)
  /\ (forall U m, namespaces w !! U = Some m -> namespaces (snd c) !! U = Some m)
  /\ (is_unscoped attributes = true ->
      namespaces (snd c) = namespaces w /\ getScope (fst c) (snd c) = false).
Proof.
  intros c. unfold getNamespaceURI, getClasses, getScope.
  destruct (is_unscoped attributes) eqn:Hun.
  - unfold c, GraphmlNamespace. fold (constructed src u attributes w).
    rewrite Hun. simpl.
    destruct (constructed_frame src u attributes w) as (Hr & Hh & _).
    rewrite Hr, Hh. rewrite list_lookup_middle by done. simpl.
    repeat split; try done.
    intros k N Hk. rewrite lookup_app_l; [done|by eapply lookup_lt_Some].
  - destruct (GraphmlNamespace_get u w) as [m|] eqn:Hslot.
    + destruct (GraphmlNamespace_occupied src u attributes w m Hslot Hun)
        as (Hn & Hr & Hh & _).
      fold c in Hn, Hr, Hh. rewrite Hn, Hr, Hh.
      rewrite list_lookup_middle by done. simpl.
      repeat split; try done.
      intros k N Hk. rewrite lookup_app_l; [done|by eapply lookup_lt_Some].
    + destruct (GraphmlNamespace_free src u attributes w Hslot Hun)
        as (Hn & Hr & Hh & _).
      fold c in Hn, Hr, Hh. rewrite Hn, Hr, Hh.
      rewrite list_lookup_middle by done. simpl.
      repeat split; try done.
      * intros k N Hk. rewrite lookup_app_l; [done|by eapply lookup_lt_Some].
      * intros U m Hm. rewrite lookup_insert_ne; [done|].
        apply namespaces_at_None_own in Hslot. congruence.
Qed.

Lemma constructor_preserves_witness :
  let c := GraphmlNamespace "" "u" unscoped_attributes two_instances in
  fst c = 2
  /\ namespaces (snd c) = namespaces two_instances
  /\ getScope 2 (snd c) = false
  /\ heap (snd c) !! 0
     = Some {| ns_uri := "u"; ns_classList := ∅; ns_isScoped := true |}.
Proof.
  pose proof (constructor_preserves two_instances "" "u" unscoped_attributes)
    as (H1 & _ & _ & H4 & _ & H6).
  destruct (H6 eq_refl) as [H7 H8].
  split; [exact H1|]. split; [exact H7|]. split; [exact H8|].
  exact (H4 0 _ eq_refl).
Defined.

(** * Further properties of the class mappings *)

(** X8.  A call of [setSpecificClass] that returns [false] has changed
    neither the registry nor any instance; and the call returns [false]
    for every value that is not a function, and for a function without a
    [name] when no name is passed. *)
Theorem setSpecificClass_failure_changes_nothing
    (w : World) (n : ref) (name : option string) (c : Value) :
  (fst (setSpecificClass n name c w) = false ->
   same_core w (snd (setSpecificClass n name c w)))
  /\ ((c = VUndefined \/ exists b, c = VNotCallable b) ->
      setSpecificClass n name c w = (false, w))
  /\ (forall f, c = VFunction f -> name_or name f = "" ->
      setSpecificClass n name c w = (false, w)).
Proof.
  split; [|split].
  - unfold setSpecificClass. destruct (heap w !! n) as [N|]; [|done].
    destruct c as [| |f]; try done.
    case_decide; [done|].
    destruct (classList_at N (name_or name f)) as [old|]; [|done].
    case_decide; [done|]. by destruct (ns_isScoped N && _).
  - intros [->|[b ->]]; unfold setSpecificClass; by destruct (heap w !! n).
  - intros f -> Hname. unfold setSpecificClass. destruct (heap w !! n); [|done].
    by rewrite decide_True.
Qed.

Lemma setSpecificClass_failure_changes_nothing_witness :
  same_core scoped_with_X
    (snd (setSpecificClass 0 (Some "X") (VFunction class_h) scoped_with_X))
  /\ setSpecificClass 0 None (VNotCallable true) scoped_with_X = (false, scoped_with_X)
  /\ setSpecificClass 0 (Some "") (VFunction class_anonymous) scoped_with_X
     = (false, scoped_with_X).
Proof.
  destruct (setSpecificClass_failure_changes_nothing scoped_with_X 0 (Some "X")
              (VFunction class_h)) as (H1 & _ & _).
  destruct (setSpecificClass_failure_changes_nothing scoped_with_X 0 None
              (VNotCallable true)) as (_ & H2 & _).
  destruct (setSpecificClass_failure_changes_nothing scoped_with_X 0 (Some "")
              (VFunction class_anonymous)) as (_ & _ & H3).
  split; [exact (H1 eq_refl)|].
  split; [exact (H2 (or_intror (ex_intro _ true eq_refl)))|].
  exact (H3 class_anonymous eq_refl eq_refl).
Defined.

(** Reading a name after a class was stored in the instance. *)
Lemma getSpecificClass_stored (w : World) (n : ref) (N : Namespace)
    (k x : string) (f : JSFunction) :
  heap w !! n = Some N ->
  getSpecificClass n x (update_ns n (set_classList (<[k := f]> (ns_classList N))) w)
  = (if decide (x = k) then VFunction f else getSpecificClass n x w).
Proof.
  intros Hn. unfold getSpecificClass, classList_at.
  rewrite (update_ns_lookup_eq w n _ N Hn), Hn. simpl.
  case_decide as Hx.
  - subst x. by rewrite lookup_insert_eq.
  - by rewrite lookup_insert_ne.
Qed.

Lemma getSpecificClass_undefined (w : World) (n : ref) (N : Namespace) (k : string) :
  heap w !! n = Some N ->
  getSpecificClass n k w = VUndefined <-> classList_at N k = None.
Proof.
  intros Hn. unfold getSpecificClass. rewrite Hn.
  destruct (classList_at N k) as [[g|]|]; [by split|..|by split].
  unfold inherited_value. by case_decide.
Qed.

(** X9.  Registering a function under a name that reads as [undefined] in
    the namespace always succeeds, scoped or not: the call returns
    [true], [getSpecificClass] of that name then returns the function,
    every other name reads as before, and with no name passed the name
    used is the function's own.  Under a name that the namespace does not
    hold but that reads as a function member of [Object.prototype] (such
    as ["toString"]) an ordinary function is not stored: the call returns
    [true] and changes nothing. *)
Theorem setSpecificClass_then_get
    (w : World) (n : ref) (N : Namespace) (name : option string) (f : JSFunction) :
  heap w !! n = Some N ->
  name_or name f <> "" ->
  let w' := snd (setSpecificClass n name (VFunction f) w) in
  (getSpecificClass n (name_or name f) w = VUndefined ->
   fst (setSpecificClass n name (VFunction f) w) = true
   /\ getSpecificClass n (name_or name f) w' = VFunction f
   /\ (forall k, k <> name_or name f -> getSpecificClass n k w' = getSpecificClass n k w)
   /\ (name = None -> getSpecificClass n (fn_name f) w' = VFunction f))
  /\ (ns_classList N !! name_or name f = None ->
      inherited (name_or name f) = true ->
      name_or name f <> "__proto__" ->
      fn_constructor f = FunctionCtor ->
      setSpecificClass n name (VFunction f) w = (true, w)).
Proof.
  intros Hn Hname w'. split.
  - intros Hfresh. apply (getSpecificClass_undefined w n N _ Hn) in Hfresh.
    assert (Hw : setSpecificClass n name (VFunction f) w
                 = (true, update_ns n (set_classList
                            (<[name_or name f := f]> (ns_classList N))) w)).
    { unfold setSpecificClass. rewrite Hn. rewrite decide_False by done.
      by rewrite Hfresh. }
    unfold w'. rewrite Hw. simpl.
    split; [done|].
    split; [by rewrite (getSpecificClass_stored w n N _ _ f Hn), decide_True|].
    split.
    + intros k Hk. by rewrite (getSpecificClass_stored w n N _ _ f Hn), decide_False.
    + intros ->. simpl. by rewrite (getSpecificClass_stored w n N _ _ f Hn), decide_True.
  - intros Hown Hi Hp Hc. unfold setSpecificClass. rewrite Hn.
    rewrite decide_False by done. unfold classList_at. rewrite Hown, Hi. simpl.
    destruct (decide (name_or name f = "__proto__")) as [?|_]; [done|].
    by rewrite decide_True.
Qed.

Lemma setSpecificClass_then_get_witness :
  let w' := snd (setSpecificClass 0 None (VFunction class_a) scoped_with_X) in
  getSpecificClass 0 "a" w' = VFunction class_a
  /\ getSpecificClass 0 "X" w' = VFunction class_f
  /\ setSpecificClass 0 (Some "toString") (VFunction class_a) scoped_with_X
     = (true, scoped_with_X).
Proof.
  pose proof (setSpecificClass_then_get scoped_with_X 0
    {| ns_uri := "u"; ns_classList := {["X" := class_f]}; ns_isScoped := true |}
    None class_a eq_refl ltac:(discriminate)) as (H & _).
  destruct (H eq_refl) as (_ & H2 & H3 & _).
  pose proof (setSpecificClass_then_get scoped_with_X 0
    {| ns_uri := "u"; ns_classList := {["X" := class_f]}; ns_isScoped := true |}
    (Some "toString") class_a eq_refl ltac:(discriminate)) as (_ & H').
  split; [exact H2|]. split; [exact (H3 "X" ltac:(discriminate))|].
  exact (H' eq_refl eq_refl ltac:(discriminate) eq_refl).
Defined.

(** X10.  While an instance has its flag set and the registry has an entry
    under its identifier, a class it holds is never replaced: whatever
    value and name [setSpecificClass] is called with, the name [X] reads
    afterwards as it did before. *)
Theorem scoped_class_is_kept
    (w : World) (n : ref) (N : Namespace) (X : string) (f : JSFunction)
    (name : option string) (c : Value) :
  heap w !! n = Some N ->
  ns_isScoped N = true ->
  is_Some (namespaces w !! ns_uri N) ->
  ns_classList N !! X = Some f ->
  getSpecificClass n X (snd (setSpecificClass n name c w)) = VFunction f.
Proof.
  intros Hn Hs [m Hreg] HX.
  assert (Hkeep : getSpecificClass n X w = VFunction f).
  { unfold getSpecificClass. by rewrite Hn, (classList_at_own N X f HX). }
  unfold setSpecificClass. rewrite Hn.
  destruct c as [| |g]; try done.
  case_decide as Hname; [done|].
  destruct (classList_at N (name_or name g)) as [old|] eqn:Hold.
  - case_decide; [done|].
    rewrite Hs, (namespaces_at_own w _ m Hreg). simpl. exact Hkeep.
  - simpl. rewrite (getSpecificClass_stored w n N _ _ g Hn).
    rewrite decide_False; [done|].
    intros ->. rewrite (classList_at_own N _ f HX) in Hold. discriminate.
Qed.

Lemma scoped_class_is_kept_witness :
  getSpecificClass 0 "X"
    (snd (setSpecificClass 0 (Some "X") (VFunction class_h) scoped_with_X))
  = VFunction class_f.
Proof.
  exact (scoped_class_is_kept scoped_with_X 0
    {| ns_uri := "u"; ns_classList := {["X" := class_f]}; ns_isScoped := true |}
    "X" class_f (Some "X") (VFunction class_h) eq_refl eq_refl
    (ex_intro _ 0 eq_refl) eq_refl).
Defined.

Lemma update_ns_classes (w : World) (this : ref) (f : Namespace -> Namespace) :
  (forall N, ns_classList (f N) = ns_classList N) ->
  classes_of (update_ns this f w) = classes_of w.
Proof.
  intros Hf. unfold update_ns, classes_of.
  destruct (heap w !! this) as [N|] eqn:Hthis; [|done]. simpl.
  rewrite list_fmap_insert. apply list_insert_id.
  rewrite list_lookup_fmap, Hthis. simpl. by rewrite Hf.
Qed.

Lemma same_core_classes (w w' : World) : same_core w w' -> classes_of w' = classes_of w.
Proof. intros (_ & Hh & _). unfold classes_of. by rewrite Hh. Qed.

Lemma descope_classes (w : World) (this : ref) :
  classes_of (snd (descope this w)) = classes_of w.
Proof.
  unfold descope. destruct (heap w !! this) as [N|]; [|done]. simpl.
  by rewrite update_ns_classes.
Qed.

Lemma scope_classes (w : World) (this : ref) (overwrite : bool) :
  classes_of (snd (scope this overwrite w)) = classes_of w.
Proof.
  assert (Hreg : forall w0 u,
            classes_of (snd (scope_return this
              (update_ns this (set_isScoped true) (store_instance u this w0))))
            = classes_of w0).
  { intros w0 u. rewrite (same_core_classes _ _ (scope_return_core this _)).
    by rewrite update_ns_classes. }
  unfold scope. destruct (heap w !! this) as [N|]; [|done].
  destruct (negb (ns_isScoped N)).
  - destruct (namespaces_at (ns_uri N) w) as [old|].
    + case_decide.
      * simpl. by rewrite update_ns_classes.
      * destruct overwrite; [destruct old as [old|]|]; simpl.
        -- rewrite descope_true, Hreg. by rewrite descope_classes.
        -- done.
        -- by rewrite Hreg.
    + by rewrite Hreg.
  - by rewrite (same_core_classes _ _ (scope_return_core this w)).
Qed.

Lemma setNamespaceURI_classes (w : World) (this : ref) (u : string) :
  classes_of (snd (setNamespaceURI this u w)) = classes_of w.
Proof.
  unfold setNamespaceURI. destruct (heap w !! this) as [N|]; [|done].
  case_decide; [done|]. destruct (ns_isScoped N).
  - destruct (namespaces_at (ns_uri N) w); [done|]. simpl.
    by rewrite update_ns_classes.
  - simpl. by rewrite update_ns_classes.
Qed.

(** X11.  [scope], [descope] and [setNamespaceURI] never touch a class
    mapping: after any of them every instance, the caller and an evicted
    occupant included, holds exactly the classes it held before. *)
Theorem registry_operations_keep_classes
    (w : World) (this : ref) (overwrite : bool) (u : string) :
  classes_of (snd (scope this overwrite w)) = classes_of w
  /\ classes_of (snd (descope this w)) = classes_of w
  /\ classes_of (snd (setNamespaceURI this u w)) = classes_of w.
Proof.
  split; [apply scope_classes|]. split; [apply descope_classes|].
  apply setNamespaceURI_classes.
Qed.

(** What one call of [setSpecificClass] can do to the instances: nothing,
    or one class stored under a non-empty name in the caller. *)
Lemma setSpecificClass_effect (w : World) (this : ref) (name : option string) (c : Value) :
  same_core w (snd (setSpecificClass this name c w))
  \/ exists N k f, heap w !! this = Some N /\ k <> ""
       /\ snd (setSpecificClass this name c w)
          = update_ns this (set_classList (<[k := f]> (ns_classList N))) w.
Proof.
  unfold setSpecificClass. destruct (heap w !! this) as [N|] eqn:Hthis; [|by left].
  destruct c as [| |f]; [by left|by left|].
  case_decide as Hname; [by left|].
  destruct (classList_at N (name_or name f)) as [old|].
  - case_decide; [by left|]. destruct (ns_isScoped N && _); [by left|].
    right. by exists N, (name_or name f), f.
  - right. by exists N, (name_or name f), f.
Qed.

Lemma named_same_classes (w w' : World) :
  classes_of w' = classes_of w -> classes_named w -> classes_named w'.
Proof.
  intros Hc Hn n N' HN'.
  assert (H : classes_of w' !! n = Some (ns_classList N')).
  { unfold classes_of. by rewrite list_lookup_fmap, HN'. }
  rewrite Hc in H. unfold classes_of in H. rewrite list_lookup_fmap in H.
  destruct (heap w !! n) as [N|] eqn:HN; [|done]. simpl in H.
  injection H as <-. by eapply Hn.
Qed.

Lemma named_setSpecificClass (w : World) (this : ref) (name : option string) (c : Value) :
  classes_named w -> classes_named (snd (setSpecificClass this name c w)).
Proof.
  intros Hn. destruct (setSpecificClass_effect w this name c)
    as [Hc|(N & k & f & Hthis & Hk & ->)].
  - eapply named_same_classes; [by apply same_core_classes|done].
  - intros n N'. destruct (decide (n = this)) as [->|Hne].
    + rewrite (update_ns_lookup_eq w this _ N Hthis). intros [= <-]. simpl.
      rewrite lookup_insert_ne by done. by eapply Hn.
    + rewrite update_ns_lookup_ne by done. apply Hn.
Qed.

Lemma named_constructed (src u : string) (attributes : option Attributes) (w : World) :
  classes_named w -> classes_named (constructed src u attributes w).
Proof.
  intros Hn n N. destruct (constructed_frame src u attributes w) as (_ & -> & _).
  intros HN. destruct (decide (n < length (heap w))) as [Hlt|Hge].
  - rewrite lookup_app_l in HN by done. by eapply Hn.
  - rewrite lookup_app_r in HN by lia.
    destruct (n - length (heap w)) as [|k]; simpl in HN; [|done].
    by injection HN as <-.
Qed.

Lemma named_step (w : World) (o : Op) : classes_named w -> classes_named (step w o).
Proof.
  intros Hn.
  destruct o as [paths|src u a|this ov|this|this u|this name c|src a ns|i window|i]; simpl.
  - done.
  - unfold GraphmlNamespace. fold (constructed src u a w).
    pose proof (named_constructed src u a w Hn) as Hc. simpl.
    destruct (negb (is_unscoped a)); [|done].
    destruct (GraphmlNamespace_get u _); [done|].
    eapply named_same_classes; [apply scope_classes|done].
  - eapply named_same_classes; [apply scope_classes|done].
  - eapply named_same_classes; [apply descope_classes|done].
  - eapply named_same_classes; [apply setNamespaceURI_classes|done].
  - by apply named_setSpecificClass.
  - eapply named_same_classes; [apply same_core_classes, load_core|done].
  - unfold onload. destruct (scripts w !! i) as [s|]; [|done].
    destruct (script_handlers s); [|done].
    eapply named_same_classes; [apply same_core_classes, loadNextClass_core|].
    assert (classes_named (clear_handlers i w)).
    { eapply named_same_classes; [apply same_core_classes, clear_handlers_core|done]. }
    destruct (script_namespace s); [by apply named_setSpecificClass|done].
  - unfold onerror. destruct (scripts w !! i) as [s|]; [|done].
    destruct (script_handlers s); [|done].
    eapply named_same_classes; [apply same_core_classes|done].
    eapply same_core_trans; [apply clear_handlers_core|apply loadNextClass_core].
Qed.

(** X12.  After every sequence of operations from the empty state, no
    instance holds a class under the empty name: [getSpecificClass] of
    the empty string is [undefined] for every instance. *)
Theorem no_class_without_name (ops : list Op) (n : ref) :
  getSpecificClass n "" (run ops empty_world) = VUndefined.
Proof.
  assert (Hrun : forall ops w, classes_named w -> classes_named (run ops w)).
  { clear. induction ops as [|o ops IH]; intros w Hw; [done|].
    simpl. apply IH. by apply named_step. }
  assert (H0 : classes_named empty_world) by (intros k N HN; simpl in HN; done).
  pose proof (Hrun ops _ H0) as Hn. unfold getSpecificClass.
  destruct (heap (run ops empty_world) !! n) as [N|] eqn:HN; [|done].
  unfold classList_at. by rewrite (Hn n N HN).
Qed.

Lemma setSpecificClass_identity (w : World) (this : ref) (name : option string)
    (c : Value) (k : ref) :
  getScope k (snd (setSpecificClass this name c w)) = getScope k w
  /\ getNamespaceURI k (snd (setSpecificClass this name c w)) = getNamespaceURI k w.
Proof.
  unfold getScope, getNamespaceURI.
  destruct (setSpecificClass_effect w this name c)
    as [(_ & Hh & _)|(N & x & f & Hthis & _ & ->)].
  - by rewrite Hh.
  - destruct (decide (k = this)) as [->|Hne].
    + by rewrite (update_ns_lookup_eq w this _ N Hthis), Hthis.
    + by rewrite update_ns_lookup_ne.
Qed.

Lemma setClasses_loop_identity (this : ref) (classlist : list (string * Value))
    (w : World) (k : ref) :
  namespaces (setClasses_loop this classlist w) = namespaces w
  /\ getScope k (setClasses_loop this classlist w) = getScope k w
  /\ getNamespaceURI k (setClasses_loop this classlist w) = getNamespaceURI k w.
Proof.
  revert w. induction classlist as [|[id c] rest IH]; intros w; [done|].
  simpl. destruct (IH (snd (setSpecificClass this (Some id) c w))) as (-> & -> & ->).
  destruct (setSpecificClass_frame this (Some id) c w) as (-> & _).
  by destruct (setSpecificClass_identity w this (Some id) c k) as [-> ->].
Qed.

(** One property with a non-empty key that reads as [undefined]. *)
Lemma setSpecificClass_free_key (w : World) (n : ref) (N : Namespace)
    (id : string) (c : Value) :
  heap w !! n = Some N ->
  id <> "" ->
  getSpecificClass n id w = VUndefined ->
  getSpecificClass n id (snd (setSpecificClass n (Some id) c w)) = stored c
  /\ (forall k, k <> id ->
        getSpecificClass n k (snd (setSpecificClass n (Some id) c w))
        = getSpecificClass n k w)
  /\ is_Some (heap (snd (setSpecificClass n (Some id) c w)) !! n).
Proof.
  intros Hn Hid Hfree.
  pose proof (proj1 (getSpecificClass_undefined w n N id Hn) Hfree) as Hnone.
  unfold setSpecificClass. rewrite Hn.
  destruct c as [|b|f]; simpl; [by rewrite Hn..|].
  unfold name_or. repeat (destruct (decide (id = "")) as [?|_]; [done|]).
  rewrite Hnone. simpl.
  split; [by rewrite (getSpecificClass_stored w n N _ _ f Hn), decide_True|].
  split.
  - intros k Hk. by rewrite (getSpecificClass_stored w n N _ _ f Hn), decide_False.
  - rewrite (update_ns_lookup_eq w n _ N Hn). by eexists.
Qed.

Lemma setClasses_loop_free_keys (n : ref) (classlist : list (string * Value)) :
  forall (w : World),
  is_Some (heap w !! n) ->
  NoDup classlist.*1 ->
  (forall id, id ∈ classlist.*1 -> id <> "" /\ getSpecificClass n id w = VUndefined) ->
  (forall id c, (id, c) ∈ classlist ->
     getSpecificClass n id (setClasses_loop n classlist w) = stored c)
  /\ (forall k, k ∉ classlist.*1 ->
        getSpecificClass n k (setClasses_loop n classlist w) = getSpecificClass n k w).
Proof.
  induction classlist as [|[id c] rest IH]; intros w [N Hn] Hnd Hfree.
  { split; [intros id c H; by apply elem_of_nil in H|done]. }
  simpl in *. apply NoDup_cons in Hnd as [Hid Hnd].
  destruct (Hfree id ltac:(left)) as [Hne Hnone].
  destruct (setSpecificClass_free_key w n N id c Hn Hne Hnone) as (Hget & Hother & Hn').
  set (w1 := snd (setSpecificClass n (Some id) c w)) in *.
  destruct (IH w1 Hn' Hnd) as [IH1 IH2].
  { intros k Hk. destruct (Hfree k ltac:(by right)) as [? ?]. split; [done|].
    rewrite Hother; [done|]. by intros ->. }
  split.
  - intros k d Hin. apply elem_of_cons in Hin as [[= -> ->]|Hin].
    + by rewrite IH2.
    + by apply IH1.
  - intros k Hk. apply not_elem_of_cons in Hk as [Hk1 Hk2]. rewrite IH2 by done.
    by apply Hother.
Qed.

(** X13.  [setClasses] returns [true] whatever its argument holds, and it
    changes neither the registry nor the identifier or the flag of any
    instance.  When the keys of the argument are non-empty and each of
    them reads as [undefined] in the namespace (it holds none of them,
    and none is the name of a member of [Object.prototype]), afterwards
    every key whose value is a function reads as that function, every key
    whose value is not a function reads as [undefined] (such properties
    are skipped without any report in the result), and all other names
    read as before. *)
Theorem setClasses_registers
    (w : World) (n : ref) (N : Namespace) (classlist : list (string * Value)) :
  heap w !! n = Some N ->
  let r := setClasses n classlist w in
  fst r = true
  /\ namespaces (snd r) = namespaces w
  /\ (forall k, getScope k (snd r) = getScope k w
                /\ getNamespaceURI k (snd r) = getNamespaceURI k w)
  /\ (NoDup classlist.*1 ->
      (forall id, id ∈ classlist.*1 ->
         id <> "" /\ getSpecificClass n id w = VUndefined) ->
      (forall id c, (id, c) ∈ classlist -> getSpecificClass n id (snd r) = stored c)
      /\ (forall k, k ∉ classlist.*1 ->
            getSpecificClass n k (snd r) = getSpecificClass n k w)).
Proof.
  intros Hn r. unfold r, setClasses. simpl.
  split; [done|].
  split; [by destruct (setClasses_loop_identity n classlist w 0)|].
  split; [intros k; by destruct (setClasses_loop_identity n classlist w k) as (_ & ? & ?)|].
  intros Hnd Hfree. by apply (setClasses_loop_free_keys n classlist w).
Qed.

Lemma setClasses_registers_witness :
  let r := setClasses 0 [("a", VFunction class_a); ("b", VNotCallable true);
                         ("c", VFunction class_c)] scoped_with_X in
  fst r = true
  /\ getSpecificClass 0 "a" (snd r) = VFunction class_a
  /\ getSpecificClass 0 "b" (snd r) = VUndefined
  /\ getSpecificClass 0 "c" (snd r) = VFunction class_c
  /\ getSpecificClass 0 "X" (snd r) = VFunction class_f.
Proof.
  pose proof (setClasses_registers scoped_with_X 0
    {| ns_uri := "u"; ns_classList := {["X" := class_f]}; ns_isScoped := true |}
    [("a", VFunction class_a); ("b", VNotCallable true); ("c", VFunction class_c)]
    eq_refl) as (H1 & _ & _ & H4).
  assert (Hnd : NoDup ["a"; "b"; "c"]) by (apply (bool_decide_unpack _); by vm_compute).
  assert (Hfree : forall id, id ∈ ["a"; "b"; "c"] ->
            id <> "" /\ getSpecificClass 0 id scoped_with_X = VUndefined).
  { intros id Hid. repeat (apply elem_of_cons in Hid as [->|Hid]; [by split|]).
    by apply elem_of_nil in Hid. }
  destruct (H4 Hnd Hfree) as [H5 H6].
  split; [exact H1|].
  split; [apply (H5 "a" (VFunction class_a)), list_elem_of_In; simpl; tauto|].
  split; [apply (H5 "b" (VNotCallable true)), list_elem_of_In; simpl; tauto|].
  split; [apply (H5 "c" (VFunction class_c)), list_elem_of_In; simpl; tauto|].
  apply (H6 "X"). apply (bool_decide_unpack _). by vm_compute.
Defined.

(** * equals *)

(** X14.  [equals] is an equivalence on the instances of a state and it is
    exactly equality of identifiers: an instance equals itself, the
    relation is symmetric and transitive, two instances are equal if and
    only if [getNamespaceURI] gives the same for both (whatever their
    flags and classes), and no instance equals a falsy value, a value
    that is not an object, or an object of another kind. *)
Theorem equals_is_identifier_equality
    (w : World) (a b c : ref) (A B C : Namespace) :
  heap w !! a = Some A -> heap w !! b = Some B -> heap w !! c = Some C ->
  equals a (EqInstance a) w = true
  /\ equals a (EqInstance b) w = equals b (EqInstance a) w
  /\ (equals a (EqInstance b) w = true -> equals b (EqInstance c) w = true ->
      equals a (EqInstance c) w = true)
  /\ (equals a (EqInstance b) w = true <-> getNamespaceURI a w = getNamespaceURI b w)
  /\ equals a EqFalsy w = false
  /\ equals a EqNotObject w = false
  /\ equals a EqOtherObject w = false.
Proof.
  intros Ha Hb Hc. unfold equals, getNamespaceURI. rewrite Ha, Hb, Hc. simpl.
  split; [by apply bool_decide_eq_true|].
  split.
  { destruct (decide (ns_uri A = ns_uri B)) as [Heq|Hne].
    - by rewrite !bool_decide_true.
    - by rewrite !bool_decide_false. }
  split.
  { intros H1%bool_decide_eq_true H2%bool_decide_eq_true.
    apply bool_decide_eq_true. congruence. }
  split; [|done].
  rewrite bool_decide_eq_true. split; [by intros ->|by intros [= ->]].
Qed.

Lemma equals_is_identifier_equality_witness :
  equals 0 (EqInstance 1) two_instances = true
  /\ equals 1 (EqInstance 0) two_instances = true
  /\ getScope 0 two_instances = true
  /\ getScope 1 two_instances = false.
Proof.
  pose proof (equals_is_identifier_equality two_instances 0 1 0
    {| ns_uri := "u"; ns_classList := ∅; ns_isScoped := true |}
    {| ns_uri := "u"; ns_classList := ∅; ns_isScoped := false |}
    {| ns_uri := "u"; ns_classList := ∅; ns_isScoped := true |}
    eq_refl eq_refl eq_refl) as (_ & H2 & _ & H4 & _).
  assert (H : equals 0 (EqInstance 1) two_instances = true)
    by (apply H4; reflexivity).
  split; [exact H|]. split; [by rewrite <- H2|]. split; reflexivity.
Defined.

(** * Further properties of the loader *)

Lemma attempt_all_core (namespace : option ref) (folder : string) (paths : list string)
    (os : list Outcome) (w w' : World) :
  same_core w w' ->
  same_core (attempt_all namespace folder paths os w)
            (attempt_all namespace folder paths os w').
Proof.
  revert os w w'. induction paths as [|X paths IH]; intros os w w' Hc; [done|].
  destruct os as [|o os]; [done|]. simpl. apply IH. by apply attempt_core.
Qed.

Lemma in_order_snoc (folder : string) (namespace : option ref) (ys : list string) :
  forall X ps L, X :: ys = ps ++ [L] ->
  in_order folder namespace X ys
  = ((fun p => fetched folder p namespace) <$> ps) ++ [fetching folder L namespace].
Proof.
  induction ys as [|Y ys IH]; intros X ps L Heq.
  - destruct ps as [|p ps].
    + simpl in Heq. by injection Heq as ->.
    + simpl in Heq. injection Heq as _ Heq. by destruct ps.
  - destruct ps as [|p ps]; [by destruct ys|].
    simpl in Heq. injection Heq as <- Heq. simpl. f_equal. by apply IH.
Qed.

(** With [X] in flight for the front task and [ys] still in its array,
    the next [length ys] completions dispatch [ys] one by one. *)
Lemma drain_remaining (e : Entry) (rest : list Entry) (ys : list string) :
  forall (X : string) (os : list Outcome) (w : World) (pre : list Script),
  scripts w = pre ++ [fetching (entry_folder e) X (entry_namespace e)] ->
  arrays w !! entry_classList e = Some ys ->
  loaderList w = (if decide (ys = []) then rest else e :: rest) ->
  length os = length ys ->
  let w' := complete_all (length pre) os w in
  scripts w' = pre ++ in_order (entry_folder e) (entry_namespace e) X ys
  /\ loaderList w' = rest
  /\ arrays w' !! entry_classList e = Some []
  /\ (forall b, b <> entry_classList e -> arrays w' !! b = arrays w !! b)
  /\ same_core (attempt_all (entry_namespace e) (entry_folder e) (X :: ys) os w) w'.
Proof.
  induction ys as [|Y ys IH]; intros X os w pre Hs Ha Hq Hlen w'.
  { destruct os; [|done]. by subst w'. }
  destruct os as [|o os]; [done|]. simpl in Hlen. injection Hlen as Hlen.
  rewrite decide_False in Hq by done.
  destruct (complete_dispatches w (length pre)
              (fetching (entry_folder e) X (entry_namespace e)) o e rest Y ys)
    as (Hc1 & Ha1 & Hs1 & Hq1); [|done|done|done|].
  { rewrite Hs. by apply list_lookup_middle. }
  simpl in Hc1.
  set (w1 := complete (length pre) o w) in *.
  assert (Hs1' : scripts w1
                 = (pre ++ [fetched (entry_folder e) X (entry_namespace e)])
                   ++ [fetching (entry_folder e) Y (entry_namespace e)]).
  { rewrite Hs1, Hs. rewrite insert_app_r_alt by lia. by rewrite Nat.sub_diag. }
  assert (Hlt : entry_classList e < length (arrays w)) by (by eapply lookup_lt_Some).
  assert (Ha1' : arrays w1 !! entry_classList e = Some ys).
  { rewrite Ha1. by apply list_lookup_insert_eq. }
  destruct (IH Y os w1 _ Hs1' Ha1' Hq1 Hlen) as (Hs2 & Hq2 & Ha2 & Hb2 & Hc2).
  assert (Hk : length (pre ++ [fetched (entry_folder e) X (entry_namespace e)])
               = S (length pre)) by (rewrite length_app; simpl; lia).
  rewrite Hk in Hs2, Hq2, Ha2, Hb2, Hc2.
  change (complete_all (S (length pre)) os w1) with w' in Hs2, Hq2, Ha2, Hb2, Hc2.
  split; [by rewrite Hs2, <- app_assoc|]. split; [done|]. split; [done|]. split.
  - intros b Hb. rewrite Hb2 by done. rewrite Ha1. by apply list_lookup_insert_ne.
  - eapply same_core_trans; [|exact Hc2].
    exact (attempt_all_core _ _ (Y :: ys) os _ _ Hc1).
Qed.

(** X15.  The paths of a task are fetched in array order, one at a time.
    Let [loadNextClass] be called when the task at the front has the paths
    [ps ++ [L]] pending, and let the first [length ps] completions happen
    with any outcomes.  Then the scripts appended are exactly those of
    [ps], all completed, followed by the script of [L], still in flight;
    nothing of another task has been dispatched; the task has left the
    queue and its array is empty; and the registry and the instances are
    those produced by the registration steps of [ps] in order. *)
Theorem drain_in_order
    (w : World) (e : Entry) (rest : list Entry) (ps : list string) (L : string)
    (os : list Outcome) :
  loaderList w = e :: rest ->
  arrays w !! entry_classList e = Some (ps ++ [L]) ->
  length os = length ps ->
  let F := entry_folder e in
  let namespace := entry_namespace e in
  let w' := complete_all (length (scripts w)) os (loadNextClass w) in
  scripts w' = scripts w ++ ((fun p => fetched F p namespace) <$> ps)
                         ++ [fetching F L namespace]
  /\ loaderList w' = rest
  /\ arrays w' !! entry_classList e = Some []
  /\ same_core (attempt_all namespace F ps os w) w'.
Proof.
  intros Hq Ha Hlen F namespace w'.
  destruct (ps ++ [L]) as [|X ys] eqn:Hpaths; [by destruct ps|].
  destruct (loadNextClass_front w e rest X ys Hq Ha) as (Hc1 & Ha1 & Hs1 & Hq1).
  assert (Hlt : entry_classList e < length (arrays w)) by (by eapply lookup_lt_Some).
  assert (Hlen' : length os = length ys).
  { apply (f_equal length) in Hpaths. rewrite length_app in Hpaths.
    simpl in Hpaths. lia. }
  destruct (drain_remaining e rest ys X os (loadNextClass w) (scripts w) Hs1)
    as (Hs2 & Hq2 & Ha2 & _ & Hc2); [|done|done|].
  { rewrite Ha1. by apply list_lookup_insert_eq. }
  fold w' in Hs2, Hq2, Ha2, Hc2.
  split; [rewrite Hs2; f_equal; by apply in_order_snoc|].
  split; [done|]. split; [done|].
  eapply same_core_trans; [|exact Hc2].
  assert (Heq : forall v, attempt_all namespace F (X :: ys) os v
                          = attempt_all namespace F ps os v).
  { clear -Hpaths Hlen. revert X ys os Hpaths Hlen.
    induction ps as [|p ps IH]; intros X ys os Hpaths Hlen v.
    - destruct os; [|done]. done.
    - simpl in Hpaths. injection Hpaths as -> Hpaths.
      destruct os as [|o os]; [done|]. simpl.
      destruct ys as [|Y ys]; [by destruct ps|].
      apply (IH Y ys os); [done|]. simpl in Hlen. lia. }
  rewrite <- Heq. by apply attempt_all_core.
Qed.

Lemma drain_in_order_witness :
  let e := {| entry_namespace := Some 0; entry_classList := 0;
              entry_folder := "lib/" |} in
  let w' := complete_all 0 [Loaded window_abc; Failed]
              (loadNextClass (set_loaderList [e] demo_abc)) in
  scripts w' = [fetched "lib/" "a.js" (Some 0); fetched "lib/" "b.js" (Some 0);
                fetching "lib/" "c.js" (Some 0)]
  /\ loaderList w' = []
  /\ arrays w' !! 0 = Some [].
Proof.
  intros e.
  pose proof (drain_in_order (set_loaderList [e] demo_abc) e [] ["a.js"; "b.js"] "c.js"
                [Loaded window_abc; Failed] eq_refl eq_refl eq_refl)
    as (H1 & H2 & H3 & _).
  exact (conj H1 (conj H2 H3)).
Defined.

(** X16.  First in, first out, as long as the earlier task is still in the
    queue.  On an idle loader a task with at least two paths
    [X :: ps ++ [L]] is enqueued, and then a second task with first path
    [D] from another array.  The second [load] dispatches nothing; the
    paths of the first task are fetched in order; and [D] is dispatched by
    the completion handler of [L], the last path of the first task, and by
    no earlier step. *)
Theorem queued_task_waits
    (w : World) (src1 src2 : string) (a1 a2 : aref) (ns1 ns2 : option ref)
    (X L D : string) (ps ds : list string) (os : list Outcome) (oL : Outcome) :
  loaderList w = [] ->
  arrays w !! a1 = Some (X :: ps ++ [L]) ->
  arrays w !! a2 = Some (D :: ds) ->
  a1 <> a2 ->
  length os = S (length ps) ->
  let k := length (scripts w) in
  let F1 := folder_of src1 in
  let w2 := load src2 a2 ns2 (load src1 a1 ns1 w) in
  let w3 := complete_all k os w2 in
  let w4 := complete (S (length ps) + k) oL w3 in
  scripts w2 = scripts w ++ [fetching F1 X ns1]
  /\ scripts w3 = scripts w ++ ((fun p => fetched F1 p ns1) <$> X :: ps)
                           ++ [fetching F1 L ns1]
  /\ scripts w4 = scripts w ++ ((fun p => fetched F1 p ns1) <$> X :: ps)
                           ++ [fetched F1 L ns1; fetching (folder_of src2) D ns2].
Proof.
  intros Hq Ha1 Ha2 Hne Hlen k F1.
  rewrite (load_idle_loadNextClass w src1 a1 ns1 Hq). intros w2 w3 w4.
  pose (e1 := {| entry_namespace := ns1; entry_classList := a1;
                 entry_folder := folder_of src1 |}).
  pose (e2 := {| entry_namespace := ns2; entry_classList := a2;
                 entry_folder := folder_of src2 |}).
  assert (Hlt1 : a1 < length (arrays w)) by (by eapply lookup_lt_Some).
  (* the first load dispatches X *)
  fold e1 in w2.
  destruct (loadNextClass_front (set_loaderList [e1] w) e1 [] X (ps ++ [L]) eq_refl Ha1)
    as (_ & HaA & HsA & HqA).
  rewrite decide_False in HqA by (by destruct ps).
  set (wA := loadNextClass (set_loaderList [e1] w)) in *. simpl in HaA, HsA.
  (* the second load only appends *)
  destruct (load_busy wA src2 a2 ns2) as [HsB HqB]; [by rewrite HqA|].
  fold e2 w2 in HsB, HqB. rewrite HqA in HqB. simpl in HqB.
  assert (HaB : arrays w2 = arrays wA).
  { unfold w2, load. rewrite HqA. by rewrite decide_False. }
  assert (Hs2 : scripts w2 = scripts w ++ [fetching F1 X ns1]) by (by rewrite HsB, HsA).
  (* the first task drains *)
  destruct (drain_remaining e1 [e2] (ps ++ [L]) X os w2 (scripts w) Hs2)
    as (Hs3 & Hq3 & _ & Hb3 & _).
  { rewrite HaB, HaA. by apply list_lookup_insert_eq. }
  { rewrite decide_False by (by destruct ps). exact HqB. }
  { rewrite length_app. simpl. lia. }
  fold k w3 in Hs3, Hq3, Hb3. simpl in Hs3.
  assert (Hs3' : scripts w3 = scripts w ++ ((fun p => fetched F1 p ns1) <$> X :: ps)
                                        ++ [fetching F1 L ns1]).
  { rewrite Hs3. f_equal. by apply (in_order_snoc F1 ns1 (ps ++ [L]) X (X :: ps) L). }
  (* the last completion of the first task dispatches D *)
  assert (Hidx : S (length ps) + k
                 = length ((fun p => fetched F1 p ns1) <$> X :: ps) + length (scripts w)).
  { rewrite length_fmap. simpl. lia. }
  destruct (complete_dispatches w3 (S (length ps) + k) (fetching F1 L ns1) oL e2 [] D ds)
    as (_ & _ & Hs4 & _).
  { rewrite Hs3', Hidx. apply lookup_after. }
  { done. }
  { done. }
  { simpl. rewrite Hb3 by done. rewrite HaB, HaA.
    rewrite list_lookup_insert_ne by done. exact Ha2. }
  fold w4 in Hs4.
  split; [exact Hs2|]. split; [exact Hs3'|].
  rewrite Hs4, Hs3', Hidx.
  exact (finish_after (scripts w) _ F1 L ns1 [fetching (folder_of src2) D ns2]).
Qed.

Lemma queued_task_waits_witness :
  let w2 := load "lib/two.js" 1 (Some 1) (load "lib/one.js" 0 (Some 0) two_tasks) in
  let w3 := complete_all 0 [Loaded window_abc] w2 in
  let w4 := complete 1 Failed w3 in
  scripts w2 = [fetching "lib/" "a.js" (Some 0)]
  /\ scripts w3 = [fetched "lib/" "a.js" (Some 0); fetching "lib/" "b.js" (Some 0)]
  /\ scripts w4 = [fetched "lib/" "a.js" (Some 0); fetched "lib/" "b.js" (Some 0);
                   fetching "lib/" "d.js" (Some 1)].
Proof.
  exact (queued_task_waits two_tasks "lib/one.js" "lib/two.js" 0 1 (Some 0) (Some 1)
           "a.js" "b.js" "d.js" [] [] [Loaded window_abc] Failed
           eq_refl eq_refl eq_refl ltac:(lia) eq_refl).
Defined.

(** X17.  A handler fires at most once: after the handler of a script has
    run, a second completion event for the same script, of either kind,
    changes nothing. *)
Theorem handlers_fire_once (w : World) (i : nat) (s : Script) (o o' : Outcome) :
  scripts w !! i = Some s ->
  script_handlers s = true ->
  complete i o' (complete i o w) = complete i o w.
Proof.
  intros Hs Hl. pose proof (complete_marks w i s o Hs Hl) as Hm.
  unfold complete at 1. unfold onload, onerror. rewrite Hm. simpl.
  by destruct o'.
Qed.

Lemma handlers_fire_once_witness :
  complete 0 Failed (complete 0 (Loaded window_abc) demo_js)
  = complete 0 (Loaded window_abc) demo_js.
Proof.
  exact (handlers_fire_once demo_js 0 (fetching "lib/" "a.js" (Some 0))
           (Loaded window_abc) Failed eq_refl eq_refl).
Defined.

(** X18.  A fetched script that does not define a named function under the
    expected global, or that was fetched for no namespace, is treated
    exactly like a failed fetch: the [onload] handler leaves the same
    state as the [onerror] handler would. *)
Theorem undefined_class_is_skipped
    (w : World) (i : nat) (s : Script) (window : gmap string Value) :
  scripts w !! i = Some s ->
  (script_namespace s = None
   \/ forall f, window !! className_of (script_src s) = Some (VFunction f) ->
        fn_name f = "") ->
  onload i window w = onerror i w.
Proof.
  intros Hs Hbad. unfold onload, onerror. rewrite Hs.
  destruct (script_handlers s); [|done]. f_equal.
  destruct (script_namespace s) as [n|]; [|done].
  destruct Hbad as [?|Hbad]; [done|].
  unfold setSpecificClass. destruct (heap _ !! n) as [N|]; [|done].
  destruct (window !! className_of (script_src s)) as [[| |f]|] eqn:Hwin; simpl; try done.
  rewrite decide_True; [done|]. by apply Hbad.
Qed.

Lemma undefined_class_is_skipped_witness :
  onload 0 ∅ demo_js = onerror 0 demo_js.
Proof.
  apply (undefined_class_is_skipped demo_js 0 (fetching "lib/" "a.js" (Some 0)) ∅ eq_refl).
  right. intros f Hf. vm_compute in Hf. discriminate.
Defined.

(** A call of [loadNextClass] on a non-empty queue always appends one
    script with its handlers installed, for the namespace of the front
    task, and removes the front task when its array is empty afterwards. *)
Lemma loadNextClass_appends (w : World) (e : Entry) (rest : list Entry) :
  loaderList w = e :: rest ->
  exists src,
    scripts (loadNextClass w)
    = scripts w ++ [fetching (entry_folder e) src (entry_namespace e)].
Proof.
  intros Hq. unfold loadNextClass, shift. rewrite Hq.
  destruct (arrays w !! entry_classList e) as [[|x xs]|]; simpl.
  - exists "undefined". by case_decide.
  - exists x. by case_decide.
  - exists "undefined". by case_decide.
Qed.

Lemma in_flight_append (l : list Script) (folder src : string) (namespace : option ref) :
  length (filter (fun s => script_handlers s = true)
                 (l ++ [fetching folder src namespace]))
  = S (length (filter (fun s => script_handlers s = true) l)).
Proof.
  rewrite filter_app, length_app.
  rewrite filter_cons_True by done. simpl. lia.
Qed.

Lemma in_flight_finish (l : list Script) (i : nat) (s : Script) :
  l !! i = Some s ->
  script_handlers s = true ->
  S (length (filter (fun s => script_handlers s = true) (<[i := without_handlers s]> l)))
  = length (filter (fun s => script_handlers s = true) l).
Proof.
  intros Hi Hl.
  assert (Hlt : i < length l) by (by eapply lookup_lt_Some).
  rewrite insert_take_drop by done.
  rewrite <- (take_drop_middle l i s Hi) at 3.
  rewrite !filter_app, !length_app.
  rewrite filter_cons_False by done.
  rewrite (filter_cons_True _ s) by done. simpl. lia.
Qed.

(** X19.  The number of fetches in flight changes only as follows.  [load]
    adds one when the queue is empty and none otherwise.  The completion
    of a script in flight takes one away and adds one back exactly when
    the queue is not empty; so a completion never raises the number, and
    lowers it exactly when the queue is empty. *)
Theorem in_flight_accounting
    (w : World) (src : string) (a : aref) (namespace : option ref)
    (i : nat) (s : Script) (o : Outcome) :
  in_flight (load src a namespace w)
  = in_flight w + (if decide (loaderList w = []) then 1 else 0)
  /\ (scripts w !! i = Some s -> script_handlers s = true ->
      S (in_flight (complete i o w))
      = in_flight w + (if decide (loaderList w = []) then 0 else 1)).
Proof.
  split.
  - unfold load. destruct (loaderList w) as [|e rest] eqn:Hq.
    + rewrite !decide_True by done.
      destruct (loadNextClass_appends (set_loaderList
                  ([] ++ [{| entry_namespace := namespace; entry_classList := a;
                             entry_folder := folder_of src |}]) w) _ [] eq_refl)
        as [x Hx].
      unfold in_flight. rewrite Hx. simpl. rewrite in_flight_append. lia.
    + rewrite !decide_False by done. unfold in_flight. simpl. lia.
  - intros Hs Hl. rewrite (complete_live w i s o Hs Hl).
    destruct (clear_handlers_fields w i s Hs) as (_ & _ & Hcq & Hcs).
    destruct (attempt_frame (script_namespace s) (script_src s) o (clear_handlers i w))
      as (_ & _ & Haq & Has).
    set (m := attempt _ _ o _) in *.
    assert (Hmq : loaderList m = loaderList w) by (by rewrite Haq, Hcq).
    assert (Hms : scripts m = <[i := without_handlers s]> (scripts w))
      by (by rewrite Has, Hcs).
    unfold in_flight. destruct (loaderList w) as [|e rest] eqn:Hq.
    + rewrite decide_True by done.
      unfold loadNextClass. rewrite Hmq, Hms.
      rewrite (in_flight_finish _ i s Hs Hl). lia.
    + rewrite decide_False by done.
      destruct (loadNextClass_appends m e rest Hmq) as [x ->].
      rewrite in_flight_append, Hms.
      rewrite (in_flight_finish _ i s Hs Hl). lia.
Qed.

Lemma in_flight_accounting_witness :
  in_flight demo_js = 1
  /\ S (in_flight (complete 0 Failed demo_js)) = in_flight demo_js + 1
  /\ S (in_flight (complete 1 Failed (complete 0 Failed demo_js)))
     = in_flight (complete 0 Failed demo_js) + 0.
Proof.
  split; [reflexivity|]. split.
  - exact (proj2 (in_flight_accounting demo_js "" 0 None 0
                    (fetching "lib/" "a.js" (Some 0)) Failed) eq_refl eq_refl).
  - exact (proj2 (in_flight_accounting (complete 0 Failed demo_js) "" 0 None 1
                    (fetching "lib/" "b.js" (Some 0)) Failed) eq_refl eq_refl).
Defined.

(** X20.  The guard against an empty array sits in
    [GraphmlNamespaceClassLoader], not in [load]: called with an empty
    array the former changes nothing, while [load] on an idle loader
    dispatches a fetch of the folder followed by ["undefined"] and leaves
    the queue empty. *)
Theorem empty_array_is_guarded_by_the_wrapper_only
    (w : World) (src : string) (a : aref) (namespace : option ref) :
  arrays w !! a = Some [] ->
  loaderList w = [] ->
  GraphmlNamespaceClassLoader src a namespace w = w
  /\ scripts (load src a namespace w)
     = scripts w ++ [fetching (folder_of src) "undefined" namespace]
  /\ loaderList (load src a namespace w) = [].
Proof.
  intros Ha Hq. split.
  - unfold GraphmlNamespaceClassLoader, array_length. by rewrite Ha.
  - unfold load. rewrite Hq. simpl.
    unfold loadNextClass, shift, array_length, loader. cbn. rewrite Ha. cbn.
    rewrite ?Ha. done.
Qed.

Lemma empty_array_is_guarded_by_the_wrapper_only_witness :
  GraphmlNamespaceClassLoader "lib/one.js" 0 (Some 0) empty_array_world = empty_array_world
  /\ scripts (load "lib/one.js" 0 (Some 0) empty_array_world)
     = [fetching "lib/" "undefined" (Some 0)].
Proof.
  pose proof (empty_array_is_guarded_by_the_wrapper_only empty_array_world
                "lib/one.js" 0 (Some 0) eq_refl eq_refl) as (H1 & H2 & _).
  exact (conj H1 H2).
Defined.

(** A completion when the front task's array is already empty. *)
Lemma complete_dispatches_undefined (w : World) (i : nat) (s : Script) (o : Outcome)
    (e : Entry) (rest : list Entry) :
  scripts w !! i = Some s ->
  script_handlers s = true ->
  loaderList w = e :: rest ->
  arrays w !! entry_classList e = Some [] ->
  scripts (complete i o w)
  = <[i := without_handlers s]> (scripts w)
    ++ [fetching (entry_folder e) "undefined" (entry_namespace e)]
  /\ loaderList (complete i o w) = rest.
Proof.
  intros Hs Hl Hq Ha. rewrite (complete_live w i s o Hs Hl).
  destruct (clear_handlers_fields w i s Hs) as (_ & Hca & Hcq & Hcs).
  destruct (attempt_frame (script_namespace s) (script_src s) o (clear_handlers i w))
    as (_ & Haa & Haq & Has).
  set (m := attempt _ _ o _) in *.
  unfold loadNextClass, shift, array_length. rewrite Haq, Hcq, Hq, Haa, Hca, Ha. simpl.
  rewrite Haa, Hca, Ha. simpl. by rewrite Has, Hcs.
Qed.

(** X21.  Tasks keep the array they were given, not a copy.  When one
    array [[A; B]] is handed to the loader twice on an idle loader, the
    first task consumes both paths, and the second task, finding the
    array empty when its turn comes, fetches its folder followed by
    ["undefined"] and nothing else. *)
Theorem shared_array_is_consumed_once
    (w : World) (src1 src2 : string) (a : aref) (ns1 ns2 : option ref)
    (A B : string) (oA oB : Outcome) :
  loaderList w = [] ->
  arrays w !! a = Some [A; B] ->
  let k := length (scripts w) in
  let w2 := load src2 a ns2 (load src1 a ns1 w) in
  let w4 := complete (S k) oB (complete k oA w2) in
  scripts w4 = scripts w ++ [fetched (folder_of src1) A ns1;
                             fetched (folder_of src1) B ns1;
                             fetching (folder_of src2) "undefined" ns2]
  /\ loaderList w4 = [].
Proof.
  intros Hq Ha k.
  rewrite (load_idle_loadNextClass w src1 a ns1 Hq). intros w2 w4.
  pose (e1 := {| entry_namespace := ns1; entry_classList := a;
                 entry_folder := folder_of src1 |}).
  pose (e2 := {| entry_namespace := ns2; entry_classList := a;
                 entry_folder := folder_of src2 |}).
  fold e1 in w2.
  assert (Hlt : a < length (arrays w)) by (by eapply lookup_lt_Some).
  destruct (loadNextClass_front (set_loaderList [e1] w) e1 [] A [B] eq_refl Ha)
    as (_ & HaA & HsA & HqA).
  set (wA := loadNextClass (set_loaderList [e1] w)) in *. simpl in HaA, HsA, HqA.
  destruct (load_busy wA src2 a ns2) as [HsB HqB]; [by rewrite HqA|].
  fold e2 w2 in HsB, HqB. rewrite HqA in HqB. simpl in HqB.
  assert (HaB : arrays w2 = arrays wA).
  { unfold w2, load. rewrite HqA. by rewrite decide_False. }
  (* A completes: B is dispatched, the first task leaves the queue *)
  destruct (complete_dispatches w2 k (fetching (folder_of src1) A ns1) oA e1 [e2] B [])
    as (_ & Ha3 & Hs3 & Hq3).
  { rewrite HsB, HsA. exact (lookup_after (scripts w) [] _). }
  { done. }
  { done. }
  { simpl. rewrite HaB, HaA. by apply list_lookup_insert_eq. }
  simpl in Ha3, Hq3.
  assert (Hs3' : scripts (complete k oA w2)
                 = scripts w ++ [fetched (folder_of src1) A ns1;
                                 fetching (folder_of src1) B ns1]).
  { rewrite Hs3, HsB, HsA. exact (finish_after (scripts w) [] _ A ns1 [_]). }
  (* B completes: the second task finds the array empty *)
  destruct (complete_dispatches_undefined (complete k oA w2) (S k)
              (fetching (folder_of src1) B ns1) oB e2 [])
    as (Hs4 & Hq4).
  { rewrite Hs3'. exact (lookup_after (scripts w) [_] _). }
  { done. }
  { done. }
  { simpl. rewrite Ha3, HaB, HaA. apply list_lookup_insert_eq. by rewrite length_insert. }
  fold w4 in Hs4, Hq4. split; [|done].
  rewrite Hs4, Hs3'.
  exact (finish_after (scripts w) [_] _ B ns1 [fetching (folder_of src2) "undefined" ns2]).
Qed.

Lemma shared_array_is_consumed_once_witness :
  let w2 := load "two/ns.js" 0 (Some 1) (load "one/ns.js" 0 (Some 0) shared_array) in
  scripts (complete 1 Failed (complete 0 Failed w2))
  = [fetched "one/" "a.js" (Some 0); fetched "one/" "b.js" (Some 0);
     fetching "two/" "undefined" (Some 1)].
Proof.
  exact (proj1 (shared_array_is_consumed_once shared_array "one/ns.js" "two/ns.js" 0
                  (Some 0) (Some 1) "a.js" "b.js" Failed Failed eq_refl eq_refl)).
Defined.

(** X22.  The folder of a task is the directory part of the [src]
    attribute of the running script: everything up to and including its
    last slash, and the empty string when it has none; taking the folder
    of a folder gives the folder back. *)
Theorem folder_of_directory (dir file : string) :
  ends_dir dir ->
  occurs slash file = false ->
  folder_of (dir +:+ file) = dir
  /\ folder_of (folder_of (dir +:+ file)) = folder_of (dir +:+ file).
Proof.
  intros Hdir Hfile.
  assert (Hgen : forall d f, ends_dir d -> occurs slash f = false ->
                   folder_of (d +:+ f) = d).
  { clear. intros d f [->|[q ->]] Hf.
    - rewrite append_nil. unfold folder_of, lastIndexOf.
      rewrite lastIndexOf_from_absent by done. unfold slice. simpl. by destruct f.
    - unfold folder_of, lastIndexOf.
      replace ((q +:+ "/") +:+ f) with (q +:+ String slash f)
        by (by rewrite append_assoc).
      rewrite lastIndexOf_from_last by done.
      replace (0 + Z.of_nat (String.length q) + 1)%Z
        with (Z.of_nat (String.length (q +:+ "/")))
        by (rewrite length_append; simpl; lia).
      replace (q +:+ String slash f) with ((q +:+ "/") +:+ f)
        by (by rewrite append_assoc).
      rewrite (slice_within _ 0) by (rewrite !length_append; lia).
      rewrite Nat.sub_0_r. apply substring_prefix. }
  split; [by apply Hgen|].
  rewrite (Hgen dir file Hdir Hfile).
  replace dir with (dir +:+ "") at 1.
  - by apply Hgen.
  - clear. induction dir as [|c d IH]; [done|]. rewrite append_cons. by rewrite IH.
Qed.

Lemma folder_of_directory_witness :
  folder_of "lib/ns/demo.js" = "lib/ns/" /\ folder_of "demo.js" = "".
Proof.
  split.
  - exact (proj1 (folder_of_directory "lib/ns/" "demo.js"
                    (or_intror (ex_intro _ "lib/ns" eq_refl)) eq_refl)).
  - exact (proj1 (folder_of_directory "" "demo.js" (or_introl eq_refl) eq_refl)).
Defined.

Lemma scripts_kept_refl (w : World) : scripts_kept w w.
Proof. intros i s Hs. by exists s. Qed.

Lemma scripts_kept_trans (w1 w2 w3 : World) :
  scripts_kept w1 w2 -> scripts_kept w2 w3 -> scripts_kept w1 w3.
Proof.
  intros H12 H23 i s Hs. destruct (H12 i s Hs) as (s2 & Hs2 & Ha & Hb & Hc).
  destruct (H23 i s2 Hs2) as (s3 & Hs3 & Hd & He & Hf).
  exists s3. split; [done|]. split; [congruence|]. split; [congruence|]. auto.
Qed.

Lemma scripts_kept_same (w w' : World) : scripts w' = scripts w -> scripts_kept w w'.
Proof. intros H i s Hs. exists s. by rewrite H. Qed.

Lemma update_ns_scripts (w : World) (this : ref) (f : Namespace -> Namespace) :
  scripts (update_ns this f w) = scripts w.
Proof. by destruct (update_ns_loader w this f) as (_ & _ & ?). Qed.

Lemma scope_return_scripts (w : World) (this : ref) :
  scripts (snd (scope_return this w)) = scripts w.
Proof.
  unfold scope_return. destruct (heap w !! this) as [N|]; [|done].
  by destruct (ns_isScoped N).
Qed.

Lemma descope_scripts (w : World) (this : ref) :
  scripts (snd (descope this w)) = scripts w.
Proof.
  unfold descope. destruct (heap w !! this); [|done]. simpl.
  by rewrite update_ns_scripts.
Qed.

Lemma scope_scripts (w : World) (this : ref) (overwrite : bool) :
  scripts (snd (scope this overwrite w)) = scripts w.
Proof.
  unfold scope. destruct (heap w !! this) as [N|]; [|done].
  destruct (negb (ns_isScoped N)); [|apply scope_return_scripts].
  destruct (namespaces_at (ns_uri N) w) as [old|].
  - case_decide.
    + simpl. by rewrite update_ns_scripts.
    + destruct overwrite; [destruct old as [old|]|]; simpl.
      * rewrite descope_true, scope_return_scripts, update_ns_scripts. simpl.
        by rewrite descope_scripts.
      * done.
      * by rewrite scope_return_scripts, update_ns_scripts.
  - by rewrite scope_return_scripts, update_ns_scripts.
Qed.

Lemma setNamespaceURI_scripts (w : World) (this : ref) (u : string) :
  scripts (snd (setNamespaceURI this u w)) = scripts w.
Proof.
  unfold setNamespaceURI. destruct (heap w !! this) as [N|]; [|done].
  case_decide; [done|]. destruct (ns_isScoped N).
  - destruct (namespaces_at (ns_uri N) w); [done|]. simpl. by rewrite update_ns_scripts.
  - simpl. by rewrite update_ns_scripts.
Qed.

Lemma scripts_kept_append (w w' : World) (tail : list Script) :
  scripts w' = scripts w ++ tail -> scripts_kept w w'.
Proof.
  intros H i s Hs. exists s. rewrite H.
  rewrite lookup_app_l; [done|by eapply lookup_lt_Some].
Qed.

Lemma loadNextClass_kept (w : World) : scripts_kept w (loadNextClass w).
Proof. destruct (loadNextClass_scripts w) as [tail H]. by eapply scripts_kept_append. Qed.

Lemma load_kept (w : World) (src : string) (a : aref) (namespace : option ref) :
  scripts_kept w (load src a namespace w).
Proof.
  unfold load. case_decide; [|by apply scripts_kept_same].
  eapply scripts_kept_trans; [|apply loadNextClass_kept]. by apply scripts_kept_same.
Qed.

Lemma clear_handlers_kept (w : World) (i : nat) : scripts_kept w (clear_handlers i w).
Proof.
  unfold clear_handlers. destruct (scripts w !! i) as [s|] eqn:Hs;
    [|apply scripts_kept_refl].
  intros j t Ht. simpl. destruct (decide (j = i)) as [->|Hne].
  - exists (without_handlers s). rewrite list_lookup_insert_eq
      by (by eapply lookup_lt_Some).
    assert (t = s) as -> by congruence. done.
  - exists t. by rewrite list_lookup_insert_ne.
Qed.

Lemma complete_kept (w : World) (i : nat) (o : Outcome) : scripts_kept w (complete i o w).
Proof.
  destruct (scripts w !! i) as [s|] eqn:Hs.
  - destruct (script_handlers s) eqn:Hl.
    + rewrite (complete_live w i s o Hs Hl).
      eapply scripts_kept_trans; [apply clear_handlers_kept|].
      eapply scripts_kept_trans; [|apply loadNextClass_kept].
      apply scripts_kept_same.
      by destruct (attempt_frame (script_namespace s) (script_src s) o
                     (clear_handlers i w)) as (_ & _ & _ & ?).
    + destruct o; simpl; unfold onload, onerror; rewrite Hs, Hl;
        apply scripts_kept_refl.
  - destruct o; simpl; unfold onload, onerror; rewrite Hs; apply scripts_kept_refl.
Qed.

Lemma step_kept (w : World) (o : Op) : scripts_kept w (step w o).
Proof.
  destruct o as [paths|src u a|this ov|this|this u|this name c|src a ns|i window|i]; simpl.
  - by apply scripts_kept_same.
  - unfold GraphmlNamespace. simpl.
    set (w1 := set_heap _ w).
    assert (H2 : scripts_kept w
              match a with
              | Some {| attr_classList := Some classList |} =>
                  GraphmlNamespaceClassLoader src classList (Some (length (heap w))) w1
              | _ => w1
              end).
    { destruct a as [[[cl|] un]|]; try by apply scripts_kept_same.
      unfold GraphmlNamespaceClassLoader. case_decide; [by apply scripts_kept_same|].
      eapply scripts_kept_trans; [|apply load_kept]. by apply scripts_kept_same. }
    eapply scripts_kept_trans; [exact H2|]. apply scripts_kept_same.
    destruct (negb (is_unscoped a)); [|done].
    destruct (GraphmlNamespace_get u _); [done|]. apply scope_scripts.
  - apply scripts_kept_same, scope_scripts.
  - apply scripts_kept_same, descope_scripts.
  - apply scripts_kept_same, setNamespaceURI_scripts.
  - apply scripts_kept_same.
    by destruct (setSpecificClass_frame this name c w) as (_ & _ & _ & ?).
  - apply load_kept.
  - apply (complete_kept w i (Loaded window)).
  - apply (complete_kept w i Failed).
Qed.

Lemma run_kept (ops : list Op) (w : World) : scripts_kept w (run ops w).
Proof.
  revert w. induction ops as [|o ops IH]; intros w; [apply scripts_kept_refl|].
  simpl. eapply scripts_kept_trans; [apply step_kept|apply IH].
Qed.

(** One call of [loadNextClass]: it appends [next_fetch], and it neither
    puts a path into an array nor a task into the queue. *)
Lemma loadNextClass_effect (w : World) :
  scripts (loadNextClass w) = scripts w ++ next_fetch w
  /\ (forall a l', arrays (loadNextClass w) !! a = Some l' ->
        exists l, arrays w !! a = Some l /\ l' `suffix_of` l)
  /\ loaderList (loadNextClass w) `suffix_of` loaderList w.
Proof.
  assert (Hsame : forall a l', arrays w !! a = Some l' ->
            exists l, arrays w !! a = Some l /\ l' `suffix_of` l).
  { intros a l' H. by exists l'. }
  unfold loadNextClass, next_fetch, shift.
  destruct (loaderList w) as [|e rest] eqn:Hq.
  { rewrite app_nil_r, Hq. done. }
  assert (Hrest : rest `suffix_of` e :: rest) by (by apply suffix_cons_r).
  destruct (arrays w !! entry_classList e) as [[|x xs]|] eqn:Ha; simpl.
  - unfold array_length. simpl. rewrite Ha. simpl. done.
  - assert (Hlt : entry_classList e < length (arrays w)) by (by eapply lookup_lt_Some).
    assert (Harr : forall a l',
              <[entry_classList e := xs]> (arrays w) !! a = Some l' ->
              exists l, arrays w !! a = Some l /\ l' `suffix_of` l).
    { intros a l'. destruct (decide (a = entry_classList e)) as [->|Hne].
      - rewrite list_lookup_insert_eq by done. intros [= <-].
        exists (x :: xs). split; [done|by apply suffix_cons_r].
      - rewrite list_lookup_insert_ne by done. apply Hsame. }
    case_decide; simpl; (split; [done|]); (split; [exact Harr|]);
      rewrite ?Hq; done.
  - unfold array_length. simpl. rewrite Ha. simpl. done.
Qed.

(** X23.  A failed fetch is not retried.  When the [onerror] handler of a
    script fires, the only script element it appends is the one for the
    next path of the task at the front of the queue (none when the queue
    is empty), taken from the front of that task's array; no array gains
    a path and no task enters the queue, so the failed path is not put
    back; the registry and the instances are untouched.  Along every
    sequence of operations that follows, the failed script stays at its
    position with the same [src] and namespace and never has handlers
    again. *)
Theorem failed_fetch_is_not_retried (w : World) (i : nat) (s : Script) (ops : list Op) :
  scripts w !! i = Some s ->
  script_handlers s = true ->
  let w' := onerror i w in
  scripts w' = <[i := without_handlers s]> (scripts w) ++ next_fetch w
  /\ (forall a l', arrays w' !! a = Some l' ->
        exists l, arrays w !! a = Some l /\ l' `suffix_of` l)
  /\ loaderList w' `suffix_of` loaderList w
  /\ same_core w w'
  /\ (exists s', scripts (run ops w') !! i = Some s'
        /\ script_src s' = script_src s
        /\ script_namespace s' = script_namespace s
        /\ script_handlers s' = false).
Proof.
  intros Hs Hl w'.
  assert (Hw' : w' = loadNextClass (clear_handlers i w)).
  { unfold w', onerror. by rewrite Hs, Hl. }
  destruct (clear_handlers_fields w i s Hs) as (Hc & Hca & Hcq & Hcs).
  destruct (loadNextClass_effect (clear_handlers i w)) as (Hscripts & Harrays & Hqueue).
  assert (Hnext : next_fetch (clear_handlers i w) = next_fetch w).
  { unfold next_fetch. by rewrite Hcq, Hca. }
  rewrite <- Hw' in Hscripts, Harrays, Hqueue.
  rewrite Hcs, Hnext in Hscripts. rewrite Hca in Harrays. rewrite Hcq in Hqueue.
  split; [exact Hscripts|]. split; [exact Harrays|]. split; [exact Hqueue|].
  split.
  { rewrite Hw'. eapply same_core_trans; [exact Hc|apply loadNextClass_core]. }
  assert (Hi : scripts w' !! i = Some (without_handlers s)).
  { exact (complete_marks w i s Failed Hs Hl). }
  destruct (run_kept ops w' i _ Hi) as (s' & Hs' & Hsrc & Hns & Hh).
  exists s'. split; [exact Hs'|]. split; [exact Hsrc|]. split; [exact Hns|].
  by apply Hh.
Qed.

Lemma failed_fetch_is_not_retried_witness :
  scripts (onerror 0 demo_js)
  = [fetched "lib/" "a.js" (Some 0); fetching "lib/" "b.js" (Some 0)]
  /\ (exists s',
        scripts (run [OpOnload 0 window_abc; OpOnerror 0; OpOnerror 1] (onerror 0 demo_js)) !! 0
        = Some s'
        /\ script_src s' = "lib/a.js"
        /\ script_handlers s' = false).
Proof.
  destruct (failed_fetch_is_not_retried demo_js 0 (fetching "lib/" "a.js" (Some 0))
              [OpOnload 0 window_abc; OpOnerror 0; OpOnerror 1] eq_refl eq_refl)
    as (H1 & _ & _ & _ & s' & H5 & H6 & _ & H8).
  split; [exact H1|]. exists s'. split; [exact H5|]. split; [exact H6|exact H8].
Defined.
